(** * Generic entity-access layer: [model/base.py] and [router/base.py]

    A shallow embedding of the four session-based helpers [create_item],
    [read_items_by_attrs], [read_item_by_id] and [update_item], together
    with the part of the ORM session they drive: the objects on the Python
    heap, the persistent rows, the staged objects, the column defaults of
    [Base] and the statements built with [select(...).where(...)]. *)

From Stdlib Require Import ZArith Lia.
From stdpp Require Import base option list gmap strings.

Local Open Scope string_scope.
Local Open Scope list_scope.

(** ** Python values *)

(** The values an attribute can hold.  [VTime] is a timezone-aware
    [datetime] (an instant), [VUuid] a [UUID]. *)
#[warnings="-register-all"]
Inductive value : Type :=
| VNone
| VBool (b : bool)
| VInt (z : Z)
| VStr (s : string)
| VList (items : list value)
| VTime (t : Z)
| VUuid (u : N).

(** Python truth value testing, [if v]: [None], [False], zero, the empty
    string and the empty collection are false; a [datetime] and a [UUID]
    define neither [__bool__] nor [__len__] and are always true. *)
Definition truthy (v : value) : bool :=
  match v with
  | VNone => false
  | VBool b => b
  | VInt z => negb (Z.eqb z 0)
  | VStr s => negb (String.eqb s "")
  | VList items => match items with [] => false | _ :: _ => true end
  | VTime _ => true
  | VUuid _ => true
  end.

(** [v is None] *)
Definition is_none (v : value) : bool :=
  match v with VNone => true | _ => false end.

Fixpoint value_eqb (x y : value) {struct x} : bool :=
  match x, y with
  | VNone, VNone => true
  | VBool a, VBool b => Bool.eqb a b
  | VInt a, VInt b => Z.eqb a b
  | VStr a, VStr b => String.eqb a b
  | VList a, VList b =>
      (fix go (l1 l2 : list value) {struct l1} : bool :=
         match l1, l2 with
         | [], [] => true
         | h1 :: t1, h2 :: t2 => value_eqb h1 h2 && go t1 t2
         | _, _ => false
         end) a b
  | VTime a, VTime b => Z.eqb a b
  | VUuid a, VUuid b => N.eqb a b
  | _, _ => false
  end.

Section value_rect_nested.
Variable P : value → Prop.
Hypothesis HNone : P VNone.
Hypothesis HBool : ∀ b, P (VBool b).
Hypothesis HInt : ∀ z, P (VInt z).
Hypothesis HStr : ∀ s, P (VStr s).
Hypothesis HList : ∀ items, Forall P items → P (VList items).
Hypothesis HTime : ∀ t, P (VTime t).
Hypothesis HUuid : ∀ u, P (VUuid u).

Fixpoint value_ind_nested (v : value) : P v :=
  match v with
  | VNone => HNone
  | VBool b => HBool b
  | VInt z => HInt z
  | VStr s => HStr s
  | VList items =>
      HList items
        ((fix all (l : list value) : Forall P l :=
            match l with
            | [] => @List.Forall_nil value P
            | x :: l' => @List.Forall_cons value P x l' (value_ind_nested x) (all l')
            end) items)
  | VTime t => HTime t
  | VUuid u => HUuid u
  end.
End value_rect_nested.

Global Instance value_eq_dec : EqDecision value.
Proof.
  assert (Heqb : ∀ x y, value_eqb x y = true ↔ x = y).
  { intros x. induction x as [| b | z | s | items IH | t | u] using value_ind_nested;
      intros [| b' | z' | s' | items' | t' | u']; simpl;
      try (split; [discriminate | congruence]); try tauto.
    - rewrite Bool.eqb_true_iff. split; congruence.
    - rewrite Z.eqb_eq. split; congruence.
    - rewrite String.eqb_eq. split; congruence.
    - revert items'. induction IH as [| h t Hh Ht IHt]; intros [| h' t'];
        try (split; [discriminate | congruence]); try tauto.
      rewrite andb_true_iff, Hh, IHt. split.
      + intros [-> E]. by inversion E.
      + intros E. inversion E. done.
    - rewrite Z.eqb_eq. split; congruence.
    - rewrite N.eqb_eq. split; congruence. }
  intros x y. destruct (value_eqb x y) eqn:E.
  - left. by apply Heqb.
  - right. intros Hxy. apply Heqb in Hxy. congruence.
Defined.

(** ** Tables and mapped instances *)

(** A mapped class deriving from [Base]: its table name and the columns it
    declares itself.  [Base] contributes [id], [created_at], [updated_at]. *)
Record table := Table { tablename : string; own_columns : list string }.

Global Instance table_eq_dec : EqDecision table.
Proof. solve_decision. Defined.

Definition base_columns : list string := ["id"; "created_at"; "updated_at"].

(** The keys of [table.__table__.c]. *)
Definition columns (t : table) : list string := base_columns ++ own_columns t.

(** An instance of a mapped class: its class and its attribute dictionary. *)
Record entity := Entity { cls : table; attrs : gmap string value }.

Global Instance entity_inhabited : Inhabited entity :=
  populate (Entity (Table "" []) ∅).

(** Reading a mapped attribute that was never assigned gives [None]. *)
Definition getattr (o : entity) (k : string) : value := default VNone (attrs o !! k).

Definition setattr (o : entity) (k : string) (v : value) : entity :=
  Entity (cls o) (<[k := v]> (attrs o)).

(** [CommonTableAttributes.to_dict]: one entry per column of the instance's
    class, holding the attribute's current value. *)
Definition to_dict (o : entity) : gmap string value :=
  list_to_map (map (λ c, (c, getattr o c)) (columns (cls o))).

(** ** The session *)

(** The session is the ORM collaborator of the access layer.  Its state
    holds the mapped instances by reference, so that a helper that
    assigns to the instance it looked up changes the very object the
    session holds.  Statements are evaluated against the attribute values
    the instances hold in memory, which is what a query observes once the
    session has written pending changes out.  [autoflush] is the
    session's own setting: when set, executing a statement first inserts
    the staged instances. *)

Definition loc := nat.

(** Methods of the session that a helper can invoke. *)
Inductive call := CAdd (l : loc) | CFlush | CExecute | CCommit | CRollback.

Record session := Session {
  heap : gmap loc entity;   (* the Python objects, by reference *)
  rows : list loc;          (* persistent instances, in storage order *)
  pending : list loc;       (* instances staged by [add], awaiting a flush *)
  autoflush : bool;         (* the session's [autoflush] setting *)
  ticks : nat;              (* clock readings taken so far *)
  draws : nat;              (* identifiers drawn so far *)
  calls : list call         (* session methods invoked so far, oldest first *)
}.

Definition set_heap (h : gmap loc entity) (s : session) : session :=
  Session h (rows s) (pending s) (autoflush s) (ticks s) (draws s) (calls s).
Definition set_rows (r : list loc) (s : session) : session :=
  Session (heap s) r (pending s) (autoflush s) (ticks s) (draws s) (calls s).
Definition set_pending (p : list loc) (s : session) : session :=
  Session (heap s) (rows s) p (autoflush s) (ticks s) (draws s) (calls s).
Definition set_ticks (n : nat) (s : session) : session :=
  Session (heap s) (rows s) (pending s) (autoflush s) n (draws s) (calls s).
Definition set_draws (n : nat) (s : session) : session :=
  Session (heap s) (rows s) (pending s) (autoflush s) (ticks s) n (calls s).
Definition set_calls (c : list call) (s : session) : session :=
  Session (heap s) (rows s) (pending s) (autoflush s) (ticks s) (draws s) c.

(** The object a reference points to. *)
Definition deref (s : session) (l : loc) : entity := heap s !!! l.

(** ** Exceptions and the session monad *)

Inductive error :=
| NoResultFound
| MultipleResultsFound
| KeyError (k : string)
| IntegrityError.

Inductive result (A : Type) := Ok (a : A) | Err (e : error).
Arguments Ok {A} a.
Arguments Err {A} e.

(** A computation against the session.  A raised exception leaves the
    session in the state it had when the exception was raised. *)
Definition outcome (A : Type) : Type := (result A * session)%type.
Definition M (A : Type) : Type := session → outcome A.

Definition ret {A} (a : A) : M A := λ s, (Ok a, s).
Definition raise {A} (e : error) : M A := λ s, (Err e, s).
Definition bind {A B} (m : M A) (k : A → M B) : M B :=
  λ s, match m s with
       | (Ok a, s') => k a s'
       | (Err e, s') => (Err e, s')
       end.
Definition lift {A} (r : result A) : M A := λ s, (r, s).
Definition gets {A} (f : session → A) : M A := λ s, (Ok (f s), s).
Definition modify (f : session → session) : M unit := λ s, (Ok tt, f s).

Notation "'let!' x ':=' m 'in' k" := (bind m (λ x, k))
  (at level 10, x name, m at level 100, k at level 200, only parsing).
Notation "m '>>' k" := (bind m (λ _, k))
  (at level 100, k at level 200, right associativity, only parsing).

(** ** Session methods *)

(** The outside world: [utcnow n] is the value of the [n]-th call of
    [datetime.now(UTC)], [uuid4 n] the [n]-th identifier drawn by
    [uuid4()]. *)
Class World := { utcnow : nat → Z; uuid4 : nat → N }.

Section AccessLayer.

Context `{World}.

Definition log (c : call) : M unit :=
  modify (λ s, set_calls (calls s ++ [c]) s).

(** [datetime.now(UTC)] *)
Definition now : M Z :=
  λ s, (Ok (utcnow (ticks s)), set_ticks (S (ticks s)) s).

(** [uuid4()] *)
Definition new_uuid : M N :=
  λ s, (Ok (uuid4 (draws s)), set_draws (S (draws s)) s).

(** [setattr(obj, attr, value)] on the object behind a reference. *)
Definition store_attr (l : loc) (k : string) (v : value) : M unit :=
  modify (λ s, set_heap (<[l := setattr (deref s l) k v]> (heap s)) s).

(** [session.add(data)]: stage a transient instance; an instance the
    session already holds is left where it is. *)
Definition add_instance (data : loc) : M unit :=
  λ s, if decide (data ∈ rows s ++ pending s) then (Ok tt, s)
       else (Ok tt, set_pending (pending s ++ [data]) s).

Definition add (data : loc) : M unit :=
  log (CAdd data) >> add_instance data.

(** A column default of [Base] fires for an attribute that holds no
    value when the row is inserted. *)
Definition with_default (k : string) (dflt : M value) (o : entity) : M entity :=
  if is_none (getattr o k) then let! v := dflt in ret (setattr o k v)
  else ret o.

(** The three defaults of [Base], in column order: [id] from [uuid4],
    then [created_at] and [updated_at], each from its own call of
    [datetime.now(UTC)]. *)
Definition apply_defaults (o : entity) : M entity :=
  let! o1 := with_default "id" (let! u := new_uuid in ret (VUuid u)) o in
  let! o2 := with_default "created_at" (let! t := now in ret (VTime t)) o1 in
  with_default "updated_at" (let! t := now in ret (VTime t)) o2.

(** Two instances stand for the same row of one table. *)
Definition same_key (o o' : entity) : Prop :=
  cls o = cls o' ∧ getattr o "id" = getattr o' "id".

Global Instance same_key_dec o o' : Decision (same_key o o').
Proof. unfold same_key. apply _. Defined.

(** INSERT of one staged instance: the defaults fire, the primary key is
    checked against the rows of the same table, and on success the
    instance carries its new attributes and becomes persistent. *)
Definition insert_row (l : loc) : M unit :=
  let! o := gets (λ s, deref s l) in
  let! o' := apply_defaults o in
  let! clash := gets (λ s, bool_decide (Exists (λ l', same_key (deref s l') o') (rows s))) in
  if clash : bool then raise IntegrityError
  else modify (λ s, set_rows (rows s ++ [l]) (set_heap (<[l := o']> (heap s)) s)).

Fixpoint flush_pending (ls : list loc) : M unit :=
  match ls with
  | [] => ret tt
  | l :: rest =>
      insert_row l >> modify (set_pending rest) >> flush_pending rest
  end.

(** What a flush does: INSERT every staged instance, oldest first. *)
Definition do_flush : M unit := λ s, flush_pending (pending s) s.

(** [session.flush()] *)
Definition flush : M unit := log CFlush >> do_flush.

(** ** Statements *)

(** [select(table)] with the [where] criteria added so far, each a pair
    of a column and the value it is compared with. *)
Record select_stmt := Select { from_table : table; criteria : list (string * value) }.

Definition select (t : table) : select_stmt := Select t [].

Definition where_eq (stmt : select_stmt) (c : string) (v : value) : select_stmt :=
  Select (from_table stmt) (criteria stmt ++ [(c, v)]).

(** [table.__table__.c[attr]]: the column collection raises [KeyError]
    for a name that is not one of its keys. *)
Definition column (t : table) (attr : string) : result string :=
  if decide (attr ∈ columns t) then Ok attr else Err (KeyError attr).

(** A row is selected when it is a row of the table and meets every
    criterion. *)
Definition selected (stmt : select_stmt) (o : entity) : Prop :=
  cls o = from_table stmt ∧ Forall (λ cv, getattr o cv.1 = cv.2) (criteria stmt).

Global Instance selected_dec stmt o : Decision (selected stmt o).
Proof. unfold selected. apply _. Defined.

(** [session.execute(stmt)] followed by [.scalars()]: with [autoflush]
    set the staged instances are flushed first; the result lists the
    selected instances in storage order.  The rows of the session stand
    for the rows of the database, each with the instance mapped to it,
    and a criterion is evaluated on the attribute the instance holds:
    the value stored once the session's changes have been flushed.  The
    statement requests no order, so that what is said of a listing is
    said up to the order of its records. *)
Definition execute (stmt : select_stmt) : M (list loc) :=
  log CExecute >>
  (λ s, if autoflush s then do_flush s else ret tt s) >>
  gets (λ s, filter (λ l, selected stmt (deref s l)) (rows s)).

(** [.all()] *)
Definition all (r : list loc) : list loc := r.

(** [.one()] *)
Definition one (r : list loc) : result loc :=
  match r with
  | [] => Err NoResultFound
  | [x] => Ok x
  | _ :: _ :: _ => Err MultipleResultsFound
  end.

(** ** The access layer, [router/base.py] *)

Definition read_item_by_id (session : session) (table : table) (id : value)
  : outcome loc :=
  (let stmt := where_eq (select table) "id" id in
   let! result := execute stmt in
   lift (one result)) session.

(** The loop of [read_items_by_attrs] that narrows the statement. *)
Fixpoint add_filters (table : table) (stmt : select_stmt)
    (kwargs : list (string * value)) : result select_stmt :=
  match kwargs with
  | [] => Ok stmt
  | (attr, value) :: rest =>
      if is_none value then add_filters table stmt rest
      else match column table attr with
           | Ok c => add_filters table (where_eq stmt c value) rest
           | Err e => Err e
           end
  end.

Definition read_items_by_attrs (session : session) (table : table)
    (kwargs : list (string * value)) : outcome (list loc) :=
  (let! stmt := lift (add_filters table (select table) kwargs) in
   let! result := execute stmt in
   ret (all result)) session.

Definition create_item (session : session) (table : table) (data : loc)
  : outcome loc :=
  (add data >>
   flush >>
   let! id := gets (λ s, getattr (deref s data) "id") in
   λ s, read_item_by_id s table id) session.

(** The loop [for attr, value in data_.items(): setattr(result, attr, value)]. *)
Fixpoint assign_all (result : loc) (items : list (string * value)) : M unit :=
  match items with
  | [] => ret tt
  | (attr, value) :: rest => store_attr result attr value >> assign_all result rest
  end.

Definition update_item (session : session) (id : value) (data : entity)
    (table : table) : outcome loc :=
  (let data_ := filter (λ kv, Is_true (truthy kv.2)) (to_dict data) in
   let! t := now in
   let data_ := <["updated_at" := VTime t]> data_ in
   let! result := (λ s, read_item_by_id s table id) in
   assign_all result (map_to_list data_) >>
   ret result) session.

End AccessLayer.

(** ** Vocabulary of the specification *)

(** The session after one more recorded method call. *)
Definition logged (c : call) (s : session) : session :=
  set_calls (calls s ++ [c]) s.

(** Nothing is waiting for an automatic flush: statement execution sees
    the rows as they are. *)
Definition quiet (s : session) : Prop :=
  autoflush s = false ∨ pending s = [].

(** Every instance is held once: a persistent instance is one row, and a
    staged instance is not yet a row. *)
Definition wf (s : session) : Prop := NoDup (rows s ++ pending s).

(** [l] is a record of [table] whose [id] column equals [id]. *)
Definition has_id (s : session) (table : table) (id : value) (l : loc) : Prop :=
  l ∈ rows s ∧ cls (deref s l) = table ∧ getattr (deref s l) "id" = id.

(** [l] is a record of [table] meeting the equality constraint of every
    filter whose value is not [None]. *)
Definition meets (s : session) (table : table) (kwargs : list (string * value))
    (l : loc) : Prop :=
  cls (deref s l) = table ∧
  Forall (λ kv, kv.2 ≠ VNone → getattr (deref s l) kv.1 = kv.2) kwargs.

Global Instance meets_dec s table kwargs l : Decision (meets s table kwargs l).
Proof. unfold meets. apply _. Defined.

Ltac unfold_monad :=
  unfold bind, ret, raise, lift, gets, modify, log, now, new_uuid, store_attr in *.

(** What [apply_defaults] computes, read off attribute by attribute. *)
Definition fill (k : string) (v : value) (o : entity) : entity :=
  if is_none (getattr o k) then setattr o k v else o.

Definition bump (k : string) (o : entity) (n : nat) : nat :=
  if is_none (getattr o k) then S n else n.

(** The object after the assignments of the loop of [update_item]. *)
Definition assign (o : entity) (items : list (string * value)) : entity :=
  foldl (λ o kv, setattr o kv.1 kv.2) o items.

(** An instance whose audit timestamps are instants in order, the first
    of them not after [bound]. *)
Definition audit_ok (bound : Z) (o : entity) : Prop :=
  ∃ c u, getattr o "created_at" = VTime c ∧ getattr o "updated_at" = VTime u ∧
         (c ≤ u)%Z ∧ (c ≤ bound)%Z.

(** Every record was created at or before the next clock reading and has
    [created_at ≤ updated_at]. *)
Definition audit_inv `{World} (s : session) : Prop :=
  ∀ l, l ∈ rows s → audit_ok (utcnow (ticks s)) (deref s l).

(** An instance whose audit timestamps are instants with
    [created_at ≤ updated_at]. *)
Definition audit_ordered (o : entity) : Prop :=
  ∃ c u, getattr o "created_at" = VTime c ∧ getattr o "updated_at" = VTime u ∧
         (c ≤ u)%Z.

(** No two rows of one table share an identifier: [id] is the primary
    key that [Base] declares. *)
Definition unique_keys (s : session) : Prop :=
  ∀ l1 l2, l1 ∈ rows s → l2 ∈ rows s →
    same_key (deref s l1) (deref s l2) → l1 = l2.

(** Every filter that is applied, its value not being [None], names a
    column of the table. *)
Definition known_filters (table : table) (kwargs : list (string * value)) : Prop :=
  ∀ k v, (k, v) ∈ kwargs → v ≠ VNone → k ∈ columns table.

(** The session a successful flush leaves: everything the session held
    has been written out, so that the instances it holds are the rows of
    the database. *)
Definition flushed `{World} (s : session) : Prop :=
  ∃ s0, flush s0 = (Ok tt, s).

(** The kind of value an attribute holds. *)
Definition kind (v : value) : nat :=
  match v with
  | VNone => 0
  | VBool _ => 1
  | VInt _ => 2
  | VStr _ => 3
  | VList _ => 4
  | VTime _ => 5
  | VUuid _ => 6
  end.

(** Every filter that is applied compares a column with a value of the
    kind the column holds in the rows of the table. *)
Definition typed_filters (s : session) (table : table)
    (kwargs : list (string * value)) : Prop :=
  ∀ k v l, (k, v) ∈ kwargs → v ≠ VNone →
    l ∈ rows s → cls (deref s l) = table →
    getattr (deref s l) k ≠ VNone → kind (getattr (deref s l) k) = kind v.

(** No two rows of one table share an identifier, the rows being counted
    by their position in the storage. *)
Definition keyed_once (s : session) : Prop :=
  ∀ i j l1 l2, rows s !! i = Some l1 → rows s !! j = Some l2 →
    same_key (deref s l1) (deref s l2) → i = j.

(** ** The handlers of [BaseController], [router/base.py]

    Each handler receives the table of the controller and the session of
    the request, and hands them to the helper of the access layer. *)
Module BaseController.
Section Handlers.
Context `{World}.

Definition get_all_items (table : table) (transaction : session)
    (kwargs : list (string * value)) : outcome (list loc) :=
  read_items_by_attrs transaction table kwargs.

Definition get_item_by_id (table : table) (transaction : session) (id : value)
  : outcome loc :=
  read_item_by_id transaction table id.

Definition create_item (table : table) (transaction : session) (data : loc)
  : outcome loc :=
  create_item transaction table data.

Definition update_item (table : table) (transaction : session) (id : value)
    (data : entity) : outcome loc :=
  update_item transaction id data table.

End Handlers.
End BaseController.

(** ** A concrete world *)

Module Example.

(** A clock that advances by one unit at every reading, and identifiers
    drawn in sequence from 100. *)
Definition world : World :=
  {| utcnow := λ n, Z.of_nat n; uuid4 := λ n, N.of_nat (100 + n) |}.

Definition users : table := Table "users" ["name"; "count"; "active"].
Definition orders : table := Table "orders" ["total"].

Definition alice : entity :=
  Entity users
    (list_to_map
       [("id", VUuid 100); ("created_at", VTime 0); ("updated_at", VTime 1);
        ("name", VStr "Alice"); ("count", VInt 5); ("active", VBool true)]).

Definition carol : entity :=
  Entity users
    (list_to_map
       [("id", VUuid 101); ("created_at", VTime 2); ("updated_at", VTime 3);
        ("name", VStr "Carol"); ("count", VInt 5); ("active", VBool false)]).

(** One record, [alice], after two clock readings and one identifier. *)
Definition db : session := Session {[ 0%nat := alice ]} [0%nat] [] true 2 1 [].

(** Two records that share the identifier 100, which the storage
    collaborator is meant to exclude. *)
Definition twins : session :=
  Session (<[1%nat := alice]> {[ 0%nat := alice ]}) [0%nat; 1%nat] [] true 2 1 [].

(** Two records with distinct identifiers. *)
Definition pair : session :=
  Session (<[1%nat := carol]> {[ 0%nat := alice ]}) [0%nat; 1%nat] [] true 4 2 [].

(** The payload of the specification's scenario: a new name, a zero
    count and a false flag. *)
Definition patch : entity :=
  Entity users
    (list_to_map [("name", VStr "Bob"); ("count", VInt 0); ("active", VBool false)]).

(** A payload that carries an identifier and a creation time. *)
Definition forged : entity :=
  Entity users (list_to_map [("id", VUuid 7); ("created_at", VTime 100)]).

(** A candidate with a name and nothing else, not yet in any session. *)
Definition candidate : entity := Entity users {[ "name" := VStr "x" ]}.

(** An empty session in which the candidate has been constructed. *)
Definition blank : session := Session {[ 0%nat := candidate ]} [] [] true 0 0 [].

(** The session [db] in which a second instance has been constructed with
    the identifier of [alice]. *)
Definition clash : session :=
  Session (<[1%nat := alice]> {[ 0%nat := alice ]}) [0%nat] [] true 2 1 [].

(** The session [db] in which [carol] has been constructed, with an
    identifier and audit timestamps of her own. *)
Definition supplied : session :=
  Session (<[1%nat := carol]> {[ 0%nat := alice ]}) [0%nat] [] true 2 1 [].

(** A session with one row, [carol] staged, and the candidate
    constructed. *)
Definition staged : session :=
  Session (<[2%nat := candidate]> (<[1%nat := carol]> {[ 0%nat := alice ]}))
    [0%nat] [1%nat] true 4 2 [].


(** An instance constructed with an identifier of its own and no audit
    timestamp. *)
Definition dave : entity :=
  Entity users (list_to_map [("id", VUuid 9); ("name", VStr "Dave")]).

(** The session [db] in which [dave] is staged. *)
Definition staged_dave : session :=
  Session (<[1%nat := dave]> {[ 0%nat := alice ]}) [0%nat] [1%nat] true 2 1 [].

End Example.

(** ** Statement execution *)

Section Reads.
Context `{World}.

Lemma flush_pending_nil s : flush_pending [] s = (Ok tt, s).
Proof. reflexivity. Qed.

Lemma execute_quiet stmt s :
  quiet s →
  execute stmt s =
    (Ok (filter (λ l, selected stmt (deref s l)) (rows s)), logged CExecute s).
Proof.
  intros Hq. unfold execute, bind, log, modify, gets, logged, do_flush, ret. simpl.
  destruct (autoflush s) eqn:Ha; [|done].
  destruct Hq as [Hq | Hq]; [congruence|]. by rewrite Hq.
Qed.

Lemma selected_by_id table id o :
  selected (where_eq (select table) "id" id) o ↔ cls o = table ∧ getattr o "id" = id.
Proof.
  unfold selected, where_eq, select. simpl.
  rewrite Forall_singleton. done.
Qed.

Lemma read_item_by_id_quiet s table id :
  quiet s →
  read_item_by_id s table id =
    (one (filter (λ l, cls (deref s l) = table ∧ getattr (deref s l) "id" = id) (rows s)),
     logged CExecute s).
Proof.
  intros Hq. unfold read_item_by_id, bind, lift. rewrite execute_quiet by done.
  f_equal. f_equal. apply list_filter_iff. intros l. apply selected_by_id.
Qed.

(** [.one()] on the matching rows of a list without repetition. *)
Lemma one_filter_sole {A} (P : A → Prop) `{∀ x, Decision (P x)} (r : list A) (x : A) :
  NoDup r → x ∈ r → P x → (∀ y, y ∈ r → P y → y = x) → filter P r = [x].
Proof.
  intros Hnd Hx HP Hsole.
  assert (Hin : ∀ y, y ∈ filter P r ↔ y = x).
  { intros y. rewrite list_elem_of_filter. split; [intros [??]; eauto | intros ->; done]. }
  assert (Hnd' : NoDup (filter P r)) by by apply NoDup_filter.
  destruct (filter P r) as [| a [| b rest]].
  - specialize (Hin x). rewrite elem_of_nil in Hin. tauto.
  - f_equal. apply Hin. left.
  - assert (a = x) by (apply Hin; left).
    assert (b = x) by (apply Hin; right; left).
    subst. inversion Hnd' as [| ?? Hnotin _]. exfalso. apply Hnotin. left.
Qed.

Lemma filter_none {A} (P : A → Prop) `{∀ x, Decision (P x)} (r : list A) :
  (∀ y, y ∈ r → ¬ P y) → filter P r = [].
Proof.
  intros Hno. destruct (filter P r) as [| a rest] eqn:E; [done|].
  assert (Ha : a ∈ filter P r) by (rewrite E; left).
  apply list_elem_of_filter in Ha as [??]. exfalso. naive_solver.
Qed.

End Reads.

(** ** Reading: [read_item_by_id] and [read_items_by_attrs] *)

Section ReadClaims.
Context `{World}.

Lemma is_none_true v : is_none v = true ↔ v = VNone.
Proof. destruct v; simpl; split; congruence. Qed.

Lemma is_none_false v : is_none v = false ↔ v ≠ VNone.
Proof. destruct v; simpl; split; congruence. Qed.

(** With every applied filter naming a column, the loop adds one
    criterion per filter whose value is not [None], in order. *)
Lemma add_filters_ok table kwargs stmt :
  (∀ k v, (k, v) ∈ kwargs → v ≠ VNone → k ∈ columns table) →
  add_filters table stmt kwargs =
    Ok (Select (from_table stmt) (criteria stmt ++ filter (λ kv, kv.2 ≠ VNone) kwargs)).
Proof.
  revert stmt. induction kwargs as [| [k v] rest IH]; intros stmt Hcols; simpl.
  - rewrite app_nil_r. by destruct stmt.
  - destruct (is_none v) eqn:Ev.
    + apply is_none_true in Ev as ->.
      rewrite filter_cons_False by (simpl; tauto).
      apply IH. intros k' v' Hin. apply Hcols. by right.
    + apply is_none_false in Ev.
      rewrite filter_cons_True by done.
      unfold column. rewrite decide_True by (apply (Hcols k v); [left | done]).
      rewrite IH by (intros k' v' Hin; apply Hcols; by right).
      simpl. by rewrite <- app_assoc.
Qed.

(** A filter whose value is [None] leaves the statement as it was. *)
Lemma add_filters_skip_none table pre k post stmt :
  add_filters table stmt (pre ++ (k, VNone) :: post) = add_filters table stmt (pre ++ post).
Proof.
  revert stmt. induction pre as [| [k' v'] pre IH]; intros stmt; simpl; [done|].
  destruct (is_none v'); [apply IH|].
  destruct (column table k'); [apply IH | done].
Qed.

(** The first applied filter that names no column stops the loop. *)
Lemma add_filters_key_error table pre k v post stmt :
  (∀ kv, kv ∈ pre → kv.2 = VNone ∨ kv.1 ∈ columns table) →
  v ≠ VNone → k ∉ columns table →
  add_filters table stmt (pre ++ (k, v) :: post) = Err (KeyError k).
Proof.
  intros Hpre Hv Hk. revert stmt.
  induction pre as [| [k' v'] pre IH]; intros stmt; simpl.
  - apply is_none_false in Hv. rewrite Hv. unfold column. by rewrite decide_False.
  - destruct (is_none v') eqn:Ev.
    + apply IH. intros kv Hin. apply Hpre. by right.
    + apply is_none_false in Ev.
      destruct (Hpre (k', v')) as [? | Hin]; [left | done |]. simpl in Hin.
      unfold column. rewrite decide_True by done.
      apply IH. intros kv Hin'. apply Hpre. by right.
Qed.

Lemma read_items_by_attrs_skip_none s table pre k post :
  read_items_by_attrs s table (pre ++ (k, VNone) :: post) =
  read_items_by_attrs s table (pre ++ post).
Proof. unfold read_items_by_attrs. by rewrite add_filters_skip_none. Qed.

Lemma selected_filters table kwargs o :
  selected (Select table (filter (λ kv, kv.2 ≠ VNone) kwargs)) o ↔
  cls o = table ∧ Forall (λ kv, kv.2 ≠ VNone → getattr o kv.1 = kv.2) kwargs.
Proof.
  unfold selected. simpl. apply and_iff_compat_l.
  induction kwargs as [| [k v] rest IH]; simpl.
  - rewrite filter_nil. split; constructor.
  - rewrite Forall_cons. simpl. destruct (decide (v = VNone)) as [-> | Hv].
    + rewrite filter_cons_False by (simpl; tauto). rewrite IH. tauto.
    + rewrite filter_cons_True by done. rewrite Forall_cons, IH. simpl. tauto.
Qed.

Lemma read_item_by_id_sole s table id l :
  NoDup (rows s) → quiet s →
  has_id s table id l → (∀ l', has_id s table id l' → l' = l) →
  read_item_by_id s table id = (Ok l, logged CExecute s).
Proof.
  intros Hnd Hq (Hin & Hc & Hi) Hsole. rewrite read_item_by_id_quiet by done.
  f_equal. rewrite (one_filter_sole _ (rows s) l); try done.
  intros y Hy [??]. by apply Hsole.
Qed.

Lemma read_item_by_id_none s table id :
  quiet s → (∀ l, ¬ has_id s table id l) →
  read_item_by_id s table id = (Err NoResultFound, logged CExecute s).
Proof.
  intros Hq Hno. rewrite read_item_by_id_quiet by done.
  f_equal. rewrite filter_none; [done|].
  intros y Hy [??]. by apply (Hno y).
Qed.

(** Among the filters, the first one that is applied and names no
    column, when there is one. *)
Lemma first_unknown_filter table (kwargs : list (string * value)) :
  (∃ k v, (k, v) ∈ kwargs ∧ v ≠ VNone ∧ k ∉ columns table) →
  ∃ pre k v post, kwargs = pre ++ (k, v) :: post ∧ v ≠ VNone ∧
    (k ∉ columns table) ∧
    ∀ kv, kv ∈ pre → kv.2 = VNone ∨ kv.1 ∈ columns table.
Proof.
  induction kwargs as [| [k0 v0] rest IH]; intros (k & v & Hin & Hv & Hk).
  - by apply elem_of_nil in Hin.
  - destruct (decide (v0 ≠ VNone ∧ k0 ∉ columns table)) as [[Hv0 Hk0] | Hfine].
    + exists [], k0, v0, rest. repeat split; try done.
      intros kv Hkv. by apply elem_of_nil in Hkv.
    + apply elem_of_cons in Hin as [Heq | Hin].
      { inversion Heq; subst. tauto. }
      destruct IH as (pre & k' & v' & post & -> & Hv' & Hk' & Hpre); [by eauto|].
      exists ((k0, v0) :: pre), k', v', post. repeat split; try done.
      intros kv Hkv. apply elem_of_cons in Hkv as [-> | Hkv]; [|by apply Hpre].
      simpl. destruct (decide (v0 = VNone)); [by left|].
      right. destruct (decide (k0 ∈ columns table)); [done | tauto].
Qed.

Lemma read_items_by_attrs_key_error s table pre k v post :
  (∀ kv, kv ∈ pre → kv.2 = VNone ∨ kv.1 ∈ columns table) →
  v ≠ VNone → k ∉ columns table →
  read_items_by_attrs s table (pre ++ (k, v) :: post) = (Err (KeyError k), s).
Proof.
  intros Hpre Hv Hk. unfold read_items_by_attrs, bind, lift.
  by rewrite add_filters_key_error.
Qed.

(** C10: a filter whose value is not [None] and whose name is not a
    column of the table makes [read_items_by_attrs] raise [KeyError]
    before the session is touched, and the error names the first such
    filter.  A filter whose value is [None] is skipped whatever its
    name. *)
Theorem read_items_by_attrs_unknown_column s table kwargs k v :
  (k, v) ∈ kwargs → v ≠ VNone → k ∉ columns table →
  (∃ k' v', (k', v') ∈ kwargs ∧ v' ≠ VNone ∧ (k' ∉ columns table) ∧
      read_items_by_attrs s table kwargs = (Err (KeyError k'), s)) ∧
  (∀ pre post, kwargs = pre ++ (k, v) :: post →
      (∀ kv, kv ∈ pre → kv.2 = VNone ∨ kv.1 ∈ columns table) →
      read_items_by_attrs s table kwargs = (Err (KeyError k), s)) ∧
  (∀ pre post,
      read_items_by_attrs s table (pre ++ (k, VNone) :: post) =
      read_items_by_attrs s table (pre ++ post)).
Proof.
  intros Hin Hv Hk. split; [|split].
  - destruct (first_unknown_filter table kwargs)
      as (pre & k' & v' & post & -> & Hv' & Hk' & Hpre); [by eauto|].
    exists k', v'. repeat split; try done.
    + apply elem_of_app. right. left.
    + by apply read_items_by_attrs_key_error.
  - intros pre post -> Hpre. by apply read_items_by_attrs_key_error.
  - intros pre post. apply read_items_by_attrs_skip_none.
Qed.

End ReadClaims.

(** ** Flushing *)

Section Flush.
Context `{World}.

Lemma getattr_setattr o k v k' :
  getattr (setattr o k v) k' = if decide (k = k') then v else getattr o k'.
Proof.
  unfold getattr, setattr. simpl. rewrite lookup_insert.
  by destruct (decide (k = k')).
Qed.

Lemma getattr_setattr_eq o k v : getattr (setattr o k v) k = v.
Proof. rewrite getattr_setattr. by rewrite decide_True. Qed.

Lemma getattr_setattr_ne o k v k' : k ≠ k' → getattr (setattr o k v) k' = getattr o k'.
Proof. intros. rewrite getattr_setattr. by rewrite decide_False. Qed.

Lemma cls_setattr o k v : cls (setattr o k v) = cls o.
Proof. reflexivity. Qed.

Lemma base_column_cases k :
  k ∉ base_columns → k ≠ "id" ∧ k ≠ "created_at" ∧ k ≠ "updated_at".
Proof. unfold base_columns. set_solver. Qed.

Lemma apply_defaults_eq o s :
  apply_defaults o s =
    let o1 := fill "id" (VUuid (uuid4 (draws s))) o in
    let o2 := fill "created_at" (VTime (utcnow (ticks s))) o1 in
    let n1 := bump "created_at" o1 (ticks s) in
    let o3 := fill "updated_at" (VTime (utcnow n1)) o2 in
    (Ok o3, Session (heap s) (rows s) (pending s) (autoflush s)
              (bump "updated_at" o2 n1) (bump "id" o (draws s)) (calls s)).
Proof.
  destruct s as [h r p a n d c]. unfold apply_defaults, with_default, fill, bump.
  unfold_monad. simpl.
  destruct (is_none (getattr o "id")); simpl;
    (destruct (is_none (getattr _ "created_at")); simpl);
    (destruct (is_none (getattr _ "updated_at")); simpl); reflexivity.
Qed.

Lemma getattr_fill o k v k' :
  getattr (fill k v o) k' =
    if decide (k = k' ∧ getattr o k = VNone) then v else getattr o k'.
Proof.
  unfold fill. destruct (is_none (getattr o k)) eqn:E.
  - apply is_none_true in E. rewrite getattr_setattr.
    destruct (decide (k = k')); [by rewrite decide_True | rewrite decide_False; tauto].
  - apply is_none_false in E. rewrite decide_False; tauto.
Qed.

Lemma cls_fill o k v : cls (fill k v o) = cls o.
Proof. unfold fill. by destruct (is_none _). Qed.

Lemma bump_le k o n : (n ≤ bump k o n)%nat.
Proof. unfold bump. destruct (is_none _); lia. Qed.

(** The defaults only read the clock and the identifier source; they
    keep the class and every attribute that already holds a value. *)
Lemma apply_defaults_frame o s :
  ∃ o' n' d',
    apply_defaults o s =
      (Ok o', Session (heap s) (rows s) (pending s) (autoflush s) n' d' (calls s)) ∧
    cls o' = cls o ∧ (ticks s ≤ n')%nat ∧
    (∀ k, getattr o k ≠ VNone → getattr o' k = getattr o k) ∧
    (∀ k, k ∉ base_columns → getattr o' k = getattr o k).
Proof.
  rewrite apply_defaults_eq. simpl. eexists _, _, _. split; [reflexivity|].
  split; [by rewrite !cls_fill|].
  split; [etrans; [|apply bump_le]; apply bump_le|].
  split.
  - intros k Hk. rewrite !getattr_fill.
    repeat case_decide; try done; destruct_and?; subst;
      rewrite ?getattr_fill in *; repeat case_decide; destruct_and?; congruence.
  - intros k (? & ? & ?)%base_column_cases. rewrite !getattr_fill.
    repeat case_decide; destruct_and?; congruence.
Qed.

(** A candidate that carries no audit timestamp receives two successive
    clock readings. *)
Lemma apply_defaults_timestamps o s :
  getattr o "created_at" = VNone → getattr o "updated_at" = VNone →
  ∃ o' d',
    apply_defaults o s =
      (Ok o', Session (heap s) (rows s) (pending s) (autoflush s)
                (S (S (ticks s))) d' (calls s)) ∧
    cls o' = cls o ∧
    getattr o' "created_at" = VTime (utcnow (ticks s)) ∧
    getattr o' "updated_at" = VTime (utcnow (S (ticks s))) ∧
    (getattr o "id" = VNone →
       getattr o' "id" = VUuid (uuid4 (draws s)) ∧ d' = S (draws s)) ∧
    (getattr o "id" ≠ VNone → getattr o' "id" = getattr o "id" ∧ d' = draws s) ∧
    (∀ k, k ∉ base_columns → getattr o' k = getattr o k).
Proof.
  intros Hc Hu. rewrite apply_defaults_eq. simpl.
  set (o1 := fill "id" (VUuid (uuid4 (draws s))) o).
  assert (Hc1 : getattr o1 "created_at" = VNone).
  { unfold o1. rewrite getattr_fill. by rewrite decide_False by (intros [??]; done). }
  assert (Hu1 : getattr o1 "updated_at" = VNone).
  { unfold o1. rewrite getattr_fill. by rewrite decide_False by (intros [??]; done). }
  set (o2 := fill "created_at" (VTime (utcnow (ticks s))) o1).
  assert (Hu2 : getattr o2 "updated_at" = VNone).
  { unfold o2. rewrite getattr_fill. by rewrite decide_False by (intros [??]; done). }
  assert (Hb1 : bump "created_at" o1 (ticks s) = S (ticks s)).
  { unfold bump. by rewrite Hc1. }
  assert (Hb2 : bump "updated_at" o2 (S (ticks s)) = S (S (ticks s))).
  { unfold bump. by rewrite Hu2. }
  rewrite Hb1, Hb2. eexists _, _. split; [reflexivity|].
  split; [unfold o2, o1; by rewrite !cls_fill|].
  split.
  { rewrite getattr_fill. rewrite decide_False by (intros [??]; done).
    unfold o2. rewrite getattr_fill. by rewrite decide_True. }
  split.
  { rewrite getattr_fill. by rewrite decide_True. }
  split; [|split].
  - intros Hi. split.
    + rewrite getattr_fill, decide_False by (intros [??]; done).
      unfold o2. rewrite getattr_fill, decide_False by (intros [??]; done).
      unfold o1. rewrite getattr_fill. by rewrite decide_True.
    + unfold bump. by rewrite Hi.
  - intros Hi. split.
    + rewrite getattr_fill, decide_False by (intros [??]; done).
      unfold o2. rewrite getattr_fill, decide_False by (intros [??]; done).
      unfold o1. rewrite getattr_fill. rewrite decide_False; [done | intros [_ ?]; done].
    + unfold bump. apply is_none_false in Hi. by rewrite Hi.
  - intros k (? & ? & ?)%base_column_cases.
    rewrite getattr_fill, decide_False by (intros [??]; done).
    unfold o2. rewrite getattr_fill, decide_False by (intros [??]; done).
    unfold o1. rewrite getattr_fill. rewrite decide_False; [done | intros [? _]; congruence].
Qed.

Lemma fill_filled k v o : v ≠ VNone → getattr (fill k v o) k ≠ VNone.
Proof.
  intros Hv. rewrite getattr_fill.
  destruct (decide (k = k ∧ getattr o k = VNone)) as [_ | Hno]; [done|].
  intros Hk. apply Hno. done.
Qed.

Lemma fill_keeps k v o k' :
  v ≠ VNone → getattr o k' ≠ VNone → getattr (fill k v o) k' ≠ VNone.
Proof. intros Hv Hk'. rewrite getattr_fill. by destruct (decide _). Qed.

(** After the defaults, the three columns of [Base] hold a value. *)
Lemma apply_defaults_filled o s o' s' :
  apply_defaults o s = (Ok o', s') →
  ∀ k, k ∈ base_columns → getattr o' k ≠ VNone.
Proof.
  rewrite apply_defaults_eq. simpl. intros [= <- _] k Hk.
  unfold base_columns in Hk.
  apply elem_of_cons in Hk as [-> | Hk];
    [| apply elem_of_cons in Hk as [-> | Hk];
       [| apply list_elem_of_singleton in Hk as ->]].
  - apply fill_keeps; [done|]. apply fill_keeps; [done|]. by apply fill_filled.
  - apply fill_keeps; [done|]. by apply fill_filled.
  - by apply fill_filled.
Qed.

(** The two outcomes of an INSERT. *)
Lemma insert_row_cases l s :
  ∃ o' n' d',
    let s1 := Session (heap s) (rows s) (pending s) (autoflush s) n' d' (calls s) in
    apply_defaults (deref s l) s = (Ok o', s1) ∧
    ((Exists (λ l', same_key (deref s l') o') (rows s) ∧
      insert_row l s = (Err IntegrityError, s1)) ∨
     (¬ Exists (λ l', same_key (deref s l') o') (rows s) ∧
      insert_row l s =
        (Ok tt, Session (<[l := o']> (heap s)) (rows s ++ [l]) (pending s)
                  (autoflush s) n' d' (calls s)))).
Proof.
  destruct (apply_defaults_frame (deref s l) s) as (o' & n' & d' & Heq & _).
  exists o', n', d'. simpl. split; [done|].
  unfold insert_row. unfold_monad. simpl. rewrite Heq. simpl.
  unfold deref at 2 4. simpl. fold (deref s).
  destruct (decide (Exists (λ l', same_key (deref s l') o') (rows s))) as [Hex | Hex].
  - left. split; [done|]. by rewrite bool_decide_eq_true_2.
  - right. split; [done|]. by rewrite bool_decide_eq_false_2.
Qed.

(** A flush writes only to the instances it inserts, appends rows and
    leaves the session's settings and its record of calls alone. *)
Lemma flush_pending_frame ls s r s' :
  flush_pending ls s = (r, s') →
  (∀ l, l ∉ ls → heap s' !! l = heap s !! l) ∧
  autoflush s' = autoflush s ∧ calls s' = calls s ∧
  (ticks s ≤ ticks s')%nat ∧
  ∃ new, rows s' = rows s ++ new ∧ new ⊆ ls.
Proof.
  revert s r s'. induction ls as [| l rest IH]; intros s r s' Hrun.
  - injection Hrun as <- <-. repeat split; try done.
    exists []. by rewrite app_nil_r.
  - simpl in Hrun. unfold bind at 1 in Hrun.
    destruct (apply_defaults_frame (deref s l) s) as (o2 & n2 & d2 & Hdef2 & _ & Hle & _).
    destruct (insert_row_cases l s) as (o' & n' & d' & Hdef & [[_ Hins] | [_ Hins]]);
      simpl in Hdef; rewrite Hins in Hrun; rewrite Hdef in Hdef2;
      injection Hdef2 as -> -> ->.
    + injection Hrun as <- <-. simpl. repeat split; try done.
      exists []. split; [by rewrite app_nil_r | apply list_subseteq_nil].
    + unfold bind, modify in Hrun. simpl in Hrun.
      apply IH in Hrun as (Hheap & Ha & Hc & Ht & new & Hrows & Hnew). simpl in *.
      repeat split; try done; [| lia |].
      * intros l' Hl'. apply not_elem_of_cons in Hl' as [Hne Hl'].
        rewrite Hheap by done. by rewrite lookup_insert_ne.
      * exists (l :: new). rewrite Hrows, <- app_assoc. split; [done|].
        intros x [-> | Hx]%elem_of_cons; [left | right; by apply Hnew].
Qed.

(** A flush that succeeds has inserted every staged instance. *)
Lemma flush_pending_ok ls s s' :
  flush_pending ls s = (Ok tt, s') →
  rows s' = rows s ++ ls ∧ pending s' = (if ls is [] then pending s else []).
Proof.
  revert s. induction ls as [| l rest IH]; intros s Hrun.
  - inversion Hrun; subst. by rewrite app_nil_r.
  - simpl in Hrun. unfold bind at 1 in Hrun.
    destruct (insert_row_cases l s) as (o' & n' & d' & _ & [[_ Hins] | [_ Hins]]);
      rewrite Hins in Hrun; [done|].
    unfold bind, modify in Hrun. simpl in Hrun.
    apply IH in Hrun as [Hrows Hpend]. simpl in *.
    rewrite Hrows, <- app_assoc. split; [done|].
    rewrite Hpend. by destruct rest.
Qed.

Lemma do_flush_ok s s' :
  do_flush s = (Ok tt, s') → rows s' = rows s ++ pending s ∧ pending s' = [].
Proof.
  unfold do_flush. intros [Hrows Hpend]%flush_pending_ok. split; [done|].
  rewrite Hpend. by destruct (pending s).
Qed.

(** A flush that succeeds leaves every instance it inserted with its
    identifier and audit timestamps assigned. *)
Lemma flush_pending_filled ls s s' l k :
  flush_pending ls s = (Ok tt, s') → l ∈ ls → k ∈ base_columns →
  getattr (deref s' l) k ≠ VNone.
Proof.
  revert s. induction ls as [| l0 rest IH]; intros s Hrun Hl Hk.
  - by apply elem_of_nil in Hl.
  - simpl in Hrun. unfold bind at 1 in Hrun.
    destruct (insert_row_cases l0 s) as (o' & n' & d' & Hdef & [[_ Hins] | [_ Hins]]);
      rewrite Hins in Hrun; [done|].
    unfold bind, modify in Hrun. simpl in Hrun.
    destruct (decide (l ∈ rest)) as [Hin | Hnin]; [by apply (IH _ Hrun)|].
    apply elem_of_cons in Hl as [-> | Hl]; [|done].
    apply flush_pending_frame in Hrun as (Hheap & _).
    unfold deref. rewrite lookup_total_alt, (Hheap l0 Hnin). simpl.
    rewrite lookup_insert_eq. simpl.
    by apply (apply_defaults_filled _ _ _ _ Hdef).
Qed.

(** Whatever a flush does, the instances that were already persistent
    are as before. *)
Lemma do_flush_rows_frame s r s' l :
  wf s → do_flush s = (r, s') → l ∈ rows s → deref s' l = deref s l ∧ l ∈ rows s'.
Proof.
  intros Hwf Hrun Hl. unfold do_flush in Hrun.
  apply flush_pending_frame in Hrun as (Hheap & _ & _ & _ & new & Hrows & _).
  split.
  - unfold deref. rewrite !lookup_total_alt, Hheap; [done|].
    intros Hp. unfold wf in Hwf. apply NoDup_app in Hwf as (_ & Hdisj & _).
    by apply (Hdisj l).
  - rewrite Hrows. apply elem_of_app. by left.
Qed.

End Flush.

(** ** Updating *)

Section Update.
Context `{World}.

Lemma list_to_map_columns (f : string → value) (cs : list string) (k : string) :
  (list_to_map (map (λ c, (c, f c)) cs) : gmap string value) !! k =
    if decide (k ∈ cs) then Some (f k) else None.
Proof.
  induction cs as [| c cs IH].
  - rewrite decide_False by apply not_elem_of_nil. simpl. apply lookup_empty.
  - change (map (λ c, (c, f c)) (c :: cs)) with ((c, f c) :: map (λ c, (c, f c)) cs).
    rewrite list_to_map_cons.
    destruct (decide (c = k)) as [-> | Hne].
    + rewrite lookup_insert_eq. rewrite decide_True; [done | left].
    + rewrite lookup_insert_ne by done. rewrite IH.
      destruct (decide (k ∈ cs)) as [Hin | Hnin].
      * rewrite decide_True; [done | by right].
      * rewrite decide_False; [done|].
        intros [-> | ?]%elem_of_cons; done.
Qed.

Lemma to_dict_lookup o k :
  to_dict o !! k = if decide (k ∈ columns (cls o)) then Some (getattr o k) else None.
Proof. apply list_to_map_columns. Qed.

(** The partial-update set before [updated_at] is forced: the columns of
    the payload whose value is truthy. *)
Lemma truthy_items_lookup data k :
  filter (λ kv : string * value, Is_true (truthy kv.2)) (to_dict data) !! k =
    if decide (k ∈ columns (cls data) ∧ truthy (getattr data k) = true)
    then Some (getattr data k) else None.
Proof.
  destruct (decide (k ∈ columns (cls data) ∧ truthy (getattr data k) = true))
    as [[Hc Ht] | Hno].
  - apply map_lookup_filter_Some. split.
    + rewrite to_dict_lookup. by rewrite decide_True.
    + simpl. by rewrite Ht.
  - apply map_lookup_filter_None. rewrite to_dict_lookup.
    destruct (decide (k ∈ columns (cls data))) as [Hc | Hc]; [right | by left].
    intros v [= <-]. simpl. intros Ht%Is_true_true. tauto.
Qed.

Lemma cls_assign o items : cls (assign o items) = cls o.
Proof.
  revert o. induction items as [| [k v] rest IH]; intros o; simpl; [done|].
  unfold assign in *. simpl. by rewrite IH.
Qed.

Lemma getattr_assign o (items : list (string * value)) k :
  NoDup items.*1 →
  getattr (assign o items) k =
    default (getattr o k) ((list_to_map items : gmap string value) !! k).
Proof.
  revert o. induction items as [| [k0 v0] rest IH]; intros o Hnd; simpl.
  - by rewrite lookup_empty.
  - simpl in Hnd. apply NoDup_cons in Hnd as [Hk0 Hnd].
    unfold assign in *. simpl. rewrite IH by done.
    destruct (decide (k0 = k)) as [-> | Hne].
    + rewrite lookup_insert_eq. simpl.
      rewrite (not_elem_of_list_to_map_1 _ k) by done. simpl.
      apply getattr_setattr_eq.
    + rewrite lookup_insert_ne by done. by rewrite getattr_setattr_ne.
Qed.

(** The assignment loop writes to the one object and to nothing else. *)
Lemma assign_all_spec l items s :
  ∃ h', assign_all l items s = (Ok tt, set_heap h' s) ∧
        (∀ l', l' ≠ l → h' !! l' = heap s !! l') ∧
        (items ≠ [] → h' !! l = Some (assign (deref s l) items)) ∧
        (items = [] → h' = heap s).
Proof.
  revert s. induction items as [| [k v] rest IH]; intros s; simpl.
  - exists (heap s). by destruct s.
  - unfold bind at 1. unfold store_attr, modify.
    destruct (IH (set_heap (<[l := setattr (deref s l) k v]> (heap s)) s))
      as (h' & Hrun & Hother & Hhere & Hnil).
    exists h'. rewrite Hrun. split; [by destruct s|]. simpl in *.
    split; [|split; [|done]].
    + intros l' Hl'. rewrite Hother by done. by rewrite lookup_insert_ne.
    + intros _. destruct rest as [| kv rest'].
      * rewrite Hnil by done. by rewrite lookup_insert_eq.
      * rewrite Hhere by done. f_equal. unfold assign, deref. simpl.
        by rewrite lookup_total_insert_eq.
Qed.

Lemma update_item_unfold s id data table :
  update_item s id data table =
    match read_item_by_id (set_ticks (S (ticks s)) s) table id with
    | (Ok l, s2) =>
        (Ok l, (assign_all l
                  (map_to_list
                     (<["updated_at" := VTime (utcnow (ticks s))]>
                        (filter (λ kv : string * value, Is_true (truthy kv.2))
                           (to_dict data)))) s2).2)
    | (Err e, s2) => (Err e, s2)
    end.
Proof.
  unfold update_item. unfold_monad. simpl.
  destruct (read_item_by_id _ table id) as [[l | e] s2]; [|done].
  destruct (assign_all_spec l
    (map_to_list
       (<["updated_at" := VTime (utcnow (ticks s))]>
          (filter (λ kv : string * value, Is_true (truthy kv.2)) (to_dict data)))) s2)
    as (h' & -> & _). done.
Qed.

(** The effect of [update_item] once the record is found. *)
Lemma update_item_found s id data table l s2 :
  read_item_by_id (set_ticks (S (ticks s)) s) table id = (Ok l, s2) →
  ∃ o', update_item s id data table = (Ok l, set_heap (<[l := o']> (heap s2)) s2) ∧
    cls o' = cls (deref s2 l) ∧
    getattr o' "updated_at" = VTime (utcnow (ticks s)) ∧
    ∀ k, k ≠ "updated_at" →
      getattr o' k =
        if decide (k ∈ columns (cls data) ∧ truthy (getattr data k) = true)
        then getattr data k else getattr (deref s2 l) k.
Proof.
  intros Hread. rewrite update_item_unfold, Hread.
  set (data_ := <["updated_at" := VTime (utcnow (ticks s))]>
                  (filter (λ kv : string * value, Is_true (truthy kv.2)) (to_dict data))).
  destruct (assign_all_spec l (map_to_list data_) s2) as (h' & Hrun & Hother & Hhere & _).
  assert (Hne : map_to_list data_ ≠ []).
  { intros Hnil. apply map_to_list_empty_iff in Hnil.
    apply (insert_non_empty _ _ _ Hnil). }
  specialize (Hhere Hne).
  exists (assign (deref s2 l) (map_to_list data_)). rewrite Hrun. simpl.
  assert (Hget : ∀ k, getattr (assign (deref s2 l) (map_to_list data_)) k =
                      default (getattr (deref s2 l) k) (data_ !! k)).
  { intros k. rewrite getattr_assign by apply NoDup_fst_map_to_list.
    by rewrite list_to_map_to_list. }
  split; [|split; [|split]].
  - f_equal. f_equal. apply map_eq. intros l'.
    destruct (decide (l' = l)) as [-> | Hl'].
    + by rewrite lookup_insert_eq.
    + rewrite lookup_insert_ne by done. by apply Hother.
  - apply cls_assign.
  - rewrite Hget. unfold data_. by rewrite lookup_insert_eq.
  - intros k Hk. rewrite Hget. unfold data_.
    rewrite lookup_insert_ne by done. rewrite truthy_items_lookup.
    by destruct (decide _).
Qed.

End Update.

(** ** Claims about [update_item] *)

Section UpdateClaims.
Context `{World}.

(** Statement execution in general: an automatic flush may come first. *)
Lemma execute_unfold stmt s :
  execute stmt s =
    match (if autoflush s then do_flush (logged CExecute s)
           else (Ok tt, logged CExecute s)) with
    | (Ok _, s2) => (Ok (filter (λ l, selected stmt (deref s2 l)) (rows s2)), s2)
    | (Err e, s2) => (Err e, s2)
    end.
Proof.
  unfold execute. unfold_monad. unfold logged. simpl.
  destruct (autoflush s); [|done].
  by destruct (do_flush _) as [[[] | e] s2].
Qed.

Lemma execute_calls stmt s : calls (execute stmt s).2 = calls s ++ [CExecute].
Proof.
  rewrite execute_unfold. destruct (autoflush s); [|done].
  destruct (do_flush (logged CExecute s)) as [r s2] eqn:Hrun.
  unfold do_flush in Hrun. apply flush_pending_frame in Hrun as (_ & _ & Hc & _).
  by destruct r.
Qed.

Lemma execute_rows_frame stmt s l :
  wf s → l ∈ rows s →
  deref (execute stmt s).2 l = deref s l ∧ l ∈ rows (execute stmt s).2.
Proof.
  intros Hwf Hl. rewrite execute_unfold. destruct (autoflush s); [|done].
  destruct (do_flush (logged CExecute s)) as [r s2] eqn:Hrun.
  apply (do_flush_rows_frame _ _ _ l) in Hrun as [Hd Hr]; [|done..].
  by destruct r.
Qed.

Lemma read_item_by_id_unfold s table id :
  read_item_by_id s table id =
    match execute (where_eq (select table) "id" id) s with
    | (Ok r, s2) => (one r, s2)
    | (Err e, s2) => (Err e, s2)
    end.
Proof. reflexivity. Qed.

Lemma read_item_by_id_calls s table id :
  calls (read_item_by_id s table id).2 = calls s ++ [CExecute].
Proof.
  rewrite read_item_by_id_unfold.
  pose proof (execute_calls (where_eq (select table) "id" id) s) as Hc.
  by destruct (execute _ s) as [[r | e] s2].
Qed.

(** A record returned by [read_item_by_id] is a row of the table with
    the identifier asked for. *)
Lemma read_item_by_id_found s table id l s2 :
  read_item_by_id s table id = (Ok l, s2) → has_id s2 table id l.
Proof.
  rewrite read_item_by_id_unfold, execute_unfold.
  destruct (if autoflush s then _ else _) as [[[] | e] s1]; [|done].
  intros Hone.
  assert (Hin : l ∈ filter (λ l, selected (where_eq (select table) "id" id) (deref s1 l))
                  (rows s1)).
  { destruct (filter _ (rows s1)) as [| a [| b rest]]; simpl in Hone; try done.
    injection Hone as -> _. left. }
  assert (s2 = s1) as -> by (by injection Hone).
  apply list_elem_of_filter in Hin as [Hsel Hin].
  apply selected_by_id in Hsel as [??]. done.
Qed.

Lemma read_item_by_id_rows_frame s table id l :
  wf s → l ∈ rows s →
  deref (read_item_by_id s table id).2 l = deref s l ∧
  l ∈ rows (read_item_by_id s table id).2.
Proof.
  intros Hwf Hl. rewrite read_item_by_id_unfold.
  pose proof (execute_rows_frame (where_eq (select table) "id" id) s l Hwf Hl) as Hf.
  by destruct (execute _ s) as [[r | e] s2].
Qed.

Lemma quiet_set_ticks n s : quiet (set_ticks n s) ↔ quiet s.
Proof. reflexivity. Qed.

(** An exception raised by the lookup leaves [update_item] as it is. *)
Lemma update_item_propagates s id data table e s2 :
  read_item_by_id (set_ticks (S (ticks s)) s) table id = (Err e, s2) →
  update_item s id data table = (Err e, s2).
Proof. intros Hread. by rewrite update_item_unfold, Hread. Qed.

(** C1: when the identifier designates one record, [update_item] returns
    that record, whose [updated_at] is the clock reading taken by the
    call, and whose every other attribute holds the payload's value when
    that value is truthy and its previous value otherwise, so that falsy
    payload values are dropped; no other object changes. *)
Theorem update_item_applies_truthy s id data table l :
  NoDup (rows s) → quiet s →
  has_id s table id l → (∀ l', has_id s table id l' → l' = l) →
  ∃ s', update_item s id data table = (Ok l, s') ∧
    cls (deref s' l) = cls (deref s l) ∧
    getattr (deref s' l) "updated_at" = VTime (utcnow (ticks s)) ∧
    (∀ k, k ≠ "updated_at" →
       getattr (deref s' l) k =
         if decide (k ∈ columns (cls data) ∧ truthy (getattr data k) = true)
         then getattr data k else getattr (deref s l) k) ∧
    (∀ l', l' ≠ l → heap s' !! l' = heap s !! l').
Proof.
  intros Hnd Hq Hl Hsole.
  pose proof (read_item_by_id_sole (set_ticks (S (ticks s)) s) table id l Hnd Hq Hl Hsole)
    as Hread.
  destruct (update_item_found s id data table l _ Hread) as (o' & -> & Hcls & Hup & Hattr).
  eexists. split; [reflexivity|].
  unfold deref. simpl. rewrite lookup_total_insert_eq.
  repeat split; try done.
  intros l' Hl'. by rewrite lookup_insert_ne.
Qed.

(** C8: when no record has the identifier, [update_item] raises the
    [NoResultFound] that [read_item_by_id] raises, and the objects and
    rows of the session are as before. *)
Theorem update_item_not_found s id data table :
  quiet s → (∀ l, ¬ has_id s table id l) →
  (update_item s id data table).1 = Err NoResultFound ∧
  (update_item s id data table).1 = (read_item_by_id s table id).1 ∧
  heap (update_item s id data table).2 = heap s ∧
  rows (update_item s id data table).2 = rows s ∧
  pending (update_item s id data table).2 = pending s.
Proof.
  intros Hq Hno.
  assert (Hread : read_item_by_id (set_ticks (S (ticks s)) s) table id =
                    (Err NoResultFound, logged CExecute (set_ticks (S (ticks s)) s))).
  { by apply read_item_by_id_none. }
  rewrite (update_item_propagates _ _ _ _ _ _ Hread). simpl.
  by rewrite read_item_by_id_none.
Qed.

(** C9: the only session method [update_item] invokes is the [execute]
    of its lookup, so that it neither adds, flushes nor commits; with
    nothing awaiting an automatic flush the rows and the staged instances
    are as before; and on success the record returned is the one the
    lookup found, a row of the session, which is modified where it is:
    its [updated_at] is the clock reading of the call, every other
    attribute holds the payload's value when that value is truthy and the
    value the lookup left otherwise, while the rows, the staged instances
    and every other object are as the lookup left them. *)
Theorem update_item_no_persistence s id data table :
  calls (update_item s id data table).2 = calls s ++ [CExecute] ∧
  (quiet s →
     rows (update_item s id data table).2 = rows s ∧
     pending (update_item s id data table).2 = pending s) ∧
  (∀ l, (update_item s id data table).1 = Ok l →
     (read_item_by_id (set_ticks (S (ticks s)) s) table id).1 = Ok l ∧
     l ∈ rows (update_item s id data table).2 ∧
     rows (update_item s id data table).2 =
       rows (read_item_by_id (set_ticks (S (ticks s)) s) table id).2 ∧
     pending (update_item s id data table).2 =
       pending (read_item_by_id (set_ticks (S (ticks s)) s) table id).2 ∧
     cls (deref (update_item s id data table).2 l) =
       cls (deref (read_item_by_id (set_ticks (S (ticks s)) s) table id).2 l) ∧
     getattr (deref (update_item s id data table).2 l) "updated_at" =
       VTime (utcnow (ticks s)) ∧
     (∀ k, k ≠ "updated_at" →
        getattr (deref (update_item s id data table).2 l) k =
          if decide (k ∈ columns (cls data) ∧ truthy (getattr data k) = true)
          then getattr data k
          else getattr
                 (deref (read_item_by_id (set_ticks (S (ticks s)) s) table id).2 l) k) ∧
     (∀ l', l' ≠ l →
        heap (update_item s id data table).2 !! l' =
        heap (read_item_by_id (set_ticks (S (ticks s)) s) table id).2 !! l')).
Proof.
  pose proof (read_item_by_id_calls (set_ticks (S (ticks s)) s) table id) as Hcalls.
  destruct (read_item_by_id (set_ticks (S (ticks s)) s) table id) as [[l | e] s2] eqn:Hread.
  - destruct (update_item_found s id data table l _ Hread)
      as (o' & Hup & Hcls & Hnow & Hattr).
    rewrite Hup. simpl. split; [done|]. split.
    + intros Hq. rewrite read_item_by_id_quiet in Hread by done.
      by injection Hread as _ <-.
    + intros l0 [= <-]. unfold deref at 1 3 4. simpl.
      rewrite lookup_total_insert_eq.
      split; [done|]. split.
      { by apply read_item_by_id_found in Hread as (? & _). }
      repeat split; try done.
      intros l' Hl'. by rewrite lookup_insert_ne.
  - rewrite (update_item_propagates _ _ _ _ _ _ Hread). simpl. split; [done|]. split.
    + intros Hq. rewrite read_item_by_id_quiet in Hread by done.
      by injection Hread as _ <-.
    + intros l0 [=].
Qed.

End UpdateClaims.

(** ** Claims about [create_item] *)

Section CreateClaims.
Context `{World}.

Lemma add_unfold data s :
  add data s =
    (Ok tt, if decide (data ∈ rows s ++ pending s) then logged (CAdd data) s
            else set_pending (pending s ++ [data]) (logged (CAdd data) s)).
Proof.
  unfold add, add_instance. unfold_monad. unfold logged. simpl.
  by destruct (decide _).
Qed.

Lemma add_wf data s : wf s → wf (add data s).2.
Proof.
  rewrite add_unfold. simpl. unfold wf. intros Hwf.
  destruct (decide (data ∈ rows s ++ pending s)) as [Hin | Hnin]; simpl; [done|].
  rewrite app_assoc. apply NoDup_app. split; [done|]. split.
  - intros x Hx ->%list_elem_of_singleton. done.
  - apply NoDup_singleton.
Qed.

Lemma flush_unfold s : flush s = do_flush (logged CFlush s).
Proof. reflexivity. Qed.

Lemma create_item_unfold s table data :
  create_item s table data =
    match flush (add data s).2 with
    | (Ok _, s2) => read_item_by_id s2 table (getattr (deref s2 data) "id")
    | (Err e, s2) => (Err e, s2)
    end.
Proof.
  unfold create_item. unfold bind at 1. rewrite add_unfold. simpl.
  unfold bind at 1. by destruct (flush _) as [[[] | e] s2].
Qed.

(** The default values depend on the session only through the clock
    readings and identifiers already consumed. *)
Lemma apply_defaults_indep o s s1 o' n' d' :
  ticks s1 = ticks s → draws s1 = draws s →
  apply_defaults o s =
    (Ok o', Session (heap s) (rows s) (pending s) (autoflush s) n' d' (calls s)) →
  apply_defaults o s1 =
    (Ok o', Session (heap s1) (rows s1) (pending s1) (autoflush s1) n' d' (calls s1)).
Proof.
  intros Ht Hd. rewrite !apply_defaults_eq. simpl. rewrite Ht, Hd.
  intros [= <- <- <-]. done.
Qed.

(** Creating from an instance the session does not hold yet, with
    nothing else staged: either the INSERT meets an existing row with
    the same key, or the instance becomes the last row. *)
Lemma create_item_flush s data :
  pending s = [] → data ∉ rows s →
  ∃ o' n' d',
    apply_defaults (deref s data) s =
      (Ok o', Session (heap s) (rows s) (pending s) (autoflush s) n' d' (calls s)) ∧
    ((Exists (λ l', same_key (deref s l') o') (rows s) ∧
      ∃ s2, flush (add data s).2 = (Err IntegrityError, s2)) ∨
     (¬ Exists (λ l', same_key (deref s l') o') (rows s) ∧
      flush (add data s).2 =
        (Ok tt, Session (<[data := o']> (heap s)) (rows s ++ [data]) []
                  (autoflush s) n' d' (calls s ++ [CAdd data; CFlush])))).
Proof.
  intros Hp Hd.
  destruct (apply_defaults_frame (deref s data) s) as (o' & n' & d' & Hdef & _).
  exists o', n', d'. split; [done|].
  rewrite add_unfold. simpl.
  rewrite decide_False by (rewrite Hp, app_nil_r; done).
  rewrite flush_unfold. unfold do_flush. simpl. rewrite Hp. simpl.
  set (s1 := logged CFlush (set_pending [data] (logged (CAdd data) s))).
  destruct (insert_row_cases data s1) as (o2 & n2 & d2 & Hdef2 & Hcases).
  pose proof (apply_defaults_indep _ s s1 o' n' d' eq_refl eq_refl Hdef) as Hdef1.
  assert (Heq : (Ok o2, Session (heap s1) (rows s1) (pending s1) (autoflush s1)
                          n2 d2 (calls s1)) =
                (Ok o', Session (heap s1) (rows s1) (pending s1) (autoflush s1)
                          n' d' (calls s1))).
  { rewrite <- Hdef2. exact Hdef1. }
  injection Heq as -> -> ->. clear Hdef2 Hdef1.
  destruct Hcases as [[Hex Hins] | [Hex Hins]]; [left | right];
    (split; [done|]); unfold bind at 1; rewrite Hins; [by eexists|].
  unfold bind, modify, ret. simpl. unfold set_pending. simpl.
  by rewrite <- app_assoc.
Qed.

(** C5: [create_item] records an [add] and a [flush]; once the flush has
    succeeded the candidate is a row, nothing is staged, a candidate that
    was not a row before holds its identifier and audit timestamps, and
    the outcome is that of reading back by the candidate's identifier:
    the one matching record, or [NoResultFound] when no row of the table
    matches. *)
Theorem create_item_spec s table data s2 :
  flush (add data s).2 = (Ok tt, s2) →
  calls s2 = calls s ++ [CAdd data; CFlush] ∧
  data ∈ rows s2 ∧ pending s2 = [] ∧
  (data ∉ rows s → ∀ k, k ∈ base_columns → getattr (deref s2 data) k ≠ VNone) ∧
  create_item s table data =
    read_item_by_id s2 table (getattr (deref s2 data) "id") ∧
  (∀ l, NoDup (rows s2) →
        has_id s2 table (getattr (deref s2 data) "id") l →
        (∀ l', has_id s2 table (getattr (deref s2 data) "id") l' → l' = l) →
        create_item s table data = (Ok l, logged CExecute s2)) ∧
  ((∀ l, ¬ has_id s2 table (getattr (deref s2 data) "id") l) →
        create_item s table data = (Err NoResultFound, logged CExecute s2)).
Proof.
  intros Hflush.
  assert (Hcreate : create_item s table data =
            read_item_by_id s2 table (getattr (deref s2 data) "id")).
  { by rewrite create_item_unfold, Hflush. }
  pose proof Hflush as Hf. rewrite flush_unfold in Hf.
  pose proof (do_flush_ok _ _ Hf) as [Hrows Hpend].
  unfold do_flush in Hf. apply flush_pending_frame in Hf as (_ & _ & Hcalls & _).
  assert (Hq : quiet s2) by (by right).
  split.
  { rewrite Hcalls, add_unfold. simpl.
    destruct (decide _); simpl; by rewrite <- app_assoc. }
  split.
  { rewrite Hrows. simpl. rewrite add_unfold. simpl.
    destruct (decide (data ∈ rows s ++ pending s)) as [Hin | Hnin]; simpl.
    - done.
    - rewrite app_assoc. apply elem_of_app. right. left. }
  split; [done|]. split.
  { intros Hnew k Hk. rewrite flush_unfold in Hflush.
    apply (flush_pending_filled _ _ _ data k Hflush); [|done].
    simpl. rewrite add_unfold. simpl.
    destruct (decide (data ∈ rows s ++ pending s)) as [Hin | Hnin]; simpl.
    - apply elem_of_app in Hin as [? | ?]; done.
    - apply elem_of_app. right. left. }
  split; [done|]. rewrite Hcreate.
  split.
  - intros l Hnd Hl Hsole. by apply read_item_by_id_sole.
  - intros Hno. by apply read_item_by_id_none.
Qed.

Lemma has_id_logged c s table id l : has_id (logged c s) table id l ↔ has_id s table id l.
Proof. reflexivity. Qed.

(** C6, as the code has it: for a candidate of the table that carries no
    identifier and no audit timestamp, with nothing else staged and the
    drawn identifier unused in the table, [create_item] returns the
    candidate; reading it back by its identifier returns it again; every
    attribute outside [id], [created_at], [updated_at] is the
    candidate's; [created_at] and [updated_at] are two successive clock
    readings, equal exactly when the clock did not advance in between. *)
Theorem create_then_read s table data :
  wf s → pending s = [] → data ∉ rows s →
  cls (deref s data) = table →
  getattr (deref s data) "id" = VNone →
  getattr (deref s data) "created_at" = VNone →
  getattr (deref s data) "updated_at" = VNone →
  (∀ l, l ∈ rows s → cls (deref s l) = table →
        getattr (deref s l) "id" ≠ VUuid (uuid4 (draws s))) →
  ∃ s', create_item s table data = (Ok data, s') ∧
    read_item_by_id s' table (getattr (deref s' data) "id") =
      (Ok data, logged CExecute s') ∧
    (∀ k, k ∉ base_columns → getattr (deref s' data) k = getattr (deref s data) k) ∧
    cls (deref s' data) = table ∧
    getattr (deref s' data) "id" = VUuid (uuid4 (draws s)) ∧
    getattr (deref s' data) "created_at" = VTime (utcnow (ticks s)) ∧
    getattr (deref s' data) "updated_at" = VTime (utcnow (S (ticks s))) ∧
    (getattr (deref s' data) "created_at" = getattr (deref s' data) "updated_at" ↔
     utcnow (ticks s) = utcnow (S (ticks s))).
Proof.
  intros Hwf Hp Hd Hcls Hid Hc Hu Hfresh.
  destruct (apply_defaults_timestamps (deref s data) s Hc Hu)
    as (o' & d' & Hdef & Hcls' & Hcr & Hup & Hidn & _ & Hother).
  destruct (Hidn Hid) as [Hid' ->].
  destruct (create_item_flush s data Hp Hd) as (o2 & n2 & d2 & Hdef2 & Hcases).
  rewrite Hdef in Hdef2. injection Hdef2 as <- <- <-.
  destruct Hcases as [[Hex _] | [_ Hflush]].
  { exfalso. apply Exists_exists in Hex as (l' & Hl' & [Hk1 Hk2]).
    apply (Hfresh l' Hl'); congruence. }
  set (s2 := Session (<[data := o']> (heap s)) (rows s ++ [data]) []
               (autoflush s) (S (S (ticks s))) (S (draws s))
               (calls s ++ [CAdd data; CFlush])) in *.
  assert (Hderef : deref s2 data = o').
  { unfold deref, s2. simpl. by rewrite lookup_total_insert_eq. }
  assert (Hold : ∀ l, l ∈ rows s → deref s2 l = deref s l).
  { intros l Hl. unfold deref, s2. simpl. rewrite lookup_total_insert_ne; [done|].
    intros ->. done. }
  assert (Hnd : NoDup (rows s2)).
  { unfold wf in Hwf. rewrite Hp, app_nil_r in Hwf. simpl.
    apply NoDup_app. split; [done|]. split; [|apply NoDup_singleton].
    intros x Hx ->%list_elem_of_singleton. done. }
  assert (Hq : quiet s2) by (by right).
  assert (Hhas : has_id s2 table (VUuid (uuid4 (draws s))) data).
  { split; [|split].
    - simpl. apply elem_of_app. right. left.
    - rewrite Hderef. congruence.
    - by rewrite Hderef. }
  assert (Hsole : ∀ l', has_id s2 table (VUuid (uuid4 (draws s))) l' → l' = data).
  { intros l' (Hin & Hc' & Hi'). simpl in Hin.
    apply elem_of_app in Hin as [Hin | ->%list_elem_of_singleton]; [|done].
    exfalso. rewrite Hold in Hc', Hi' by done. by apply (Hfresh l' Hin). }
  exists (logged CExecute s2). split; [|split].
  - rewrite create_item_unfold, Hflush, Hderef, Hid'.
    by apply read_item_by_id_sole.
  - change (deref (logged CExecute s2) data) with (deref s2 data).
    rewrite Hderef, Hid'. by apply read_item_by_id_sole.
  - change (deref (logged CExecute s2) data) with (deref s2 data).
    rewrite Hderef, Hcr, Hup. repeat split; try done; try congruence.
Qed.

End CreateClaims.

(** ** Server-assigned fields over a record's lifetime *)

Section Lifetime.
Context `{World}.

Lemma read_items_by_attrs_rows_frame s table kwargs l :
  wf s → l ∈ rows s →
  deref (read_items_by_attrs s table kwargs).2 l = deref s l.
Proof.
  intros Hwf Hl. unfold read_items_by_attrs, bind, lift, ret.
  destruct (add_filters table (select table) kwargs) as [stmt | e]; [|done].
  pose proof (execute_rows_frame stmt s l Hwf Hl) as [Hd _].
  by destruct (execute stmt s) as [[r | e] s2].
Qed.

Lemma create_item_rows_frame s table data l :
  wf s → l ∈ rows s → deref (create_item s table data).2 l = deref s l.
Proof.
  intros Hwf Hl. rewrite create_item_unfold.
  pose proof (add_wf data s Hwf) as Hwfa.
  assert (Hla : l ∈ rows (add data s).2 ∧ deref (add data s).2 l = deref s l).
  { rewrite add_unfold. simpl. by destruct (decide _). }
  destruct Hla as [Hla Hda].
  rewrite flush_unfold.
  destruct (do_flush (logged CFlush (add data s).2)) as [r s2] eqn:Hrun.
  pose proof Hrun as Hrun'.
  apply (do_flush_rows_frame _ _ _ l) in Hrun' as [Hd2 Hl2]; [|done..].
  change (deref (logged CFlush (add data s).2) l) with (deref (add data s).2 l) in Hd2.
  destruct r as [[] | e]; simpl; [|congruence].
  apply do_flush_ok in Hrun as [_ Hpend].
  rewrite read_item_by_id_quiet by (by right). simpl.
  change (deref (logged CExecute s2) l) with (deref s2 l). congruence.
Qed.

Lemma update_item_rows_frame s id data table l k :
  wf s → l ∈ rows s → k ≠ "updated_at" →
  ¬ (k ∈ columns (cls data) ∧ truthy (getattr data k) = true) →
  getattr (deref (update_item s id data table).2 l) k = getattr (deref s l) k.
Proof.
  intros Hwf Hl Hk Hfalsy.
  pose proof (read_item_by_id_rows_frame (set_ticks (S (ticks s)) s) table id l Hwf Hl)
    as [Hd Hin].
  change (deref (set_ticks (S (ticks s)) s) l) with (deref s l) in Hd.
  destruct (read_item_by_id (set_ticks (S (ticks s)) s) table id) as [[l0 | e] s2] eqn:Hread.
  - destruct (update_item_found s id data table l0 _ Hread) as (o' & -> & _ & _ & Hattr).
    simpl in *. unfold deref at 1. simpl.
    destruct (decide (l = l0)) as [-> | Hne].
    + rewrite lookup_total_insert_eq, Hattr by done.
      rewrite decide_False by done. by rewrite Hd.
    + rewrite lookup_total_insert_ne by done. fold (deref s2 l). by rewrite Hd.
  - rewrite (update_item_propagates _ _ _ _ _ _ Hread). simpl in *. by rewrite Hd.
Qed.

(** C2, as the code has it: a record is left as it is by
    [read_item_by_id], [read_items_by_attrs] and [create_item], and
    [update_item] keeps its [id] and [created_at] whenever the payload's
    values for these two fields are falsy. *)
Theorem server_fields_preserved s l :
  wf s → l ∈ rows s →
  (∀ table id, deref (read_item_by_id s table id).2 l = deref s l) ∧
  (∀ table kwargs, deref (read_items_by_attrs s table kwargs).2 l = deref s l) ∧
  (∀ table data, deref (create_item s table data).2 l = deref s l) ∧
  (∀ id data table,
      truthy (getattr data "id") = false →
      truthy (getattr data "created_at") = false →
      getattr (deref (update_item s id data table).2 l) "id" =
        getattr (deref s l) "id" ∧
      getattr (deref (update_item s id data table).2 l) "created_at" =
        getattr (deref s l) "created_at").
Proof.
  intros Hwf Hl. split; [|split; [|split]].
  - intros table id. by apply read_item_by_id_rows_frame.
  - intros table kwargs. by apply read_items_by_attrs_rows_frame.
  - intros table data. by apply create_item_rows_frame.
  - intros id data table Hid Hc. split.
    + apply update_item_rows_frame; try done. intros [_ ?]. congruence.
    + apply update_item_rows_frame; try done. intros [_ ?]. congruence.
Qed.

(** C7, as the code has it.  The clock never goes back; the session
    holds each instance once; every record has its [created_at] at or
    before its [updated_at] and not after the next clock reading.
    Then this still holds after a successful [create_item] made with
    nothing else staged, from a candidate that carries neither
    [created_at] nor [updated_at], and after a successful [update_item]
    made with nothing awaiting an automatic flush, from a payload that
    carries no truthy [created_at].  Both conditions on [update_item] are
    needed: the payload's [created_at] is assigned as given, and the clock
    of the update is read before its lookup flushes a staged instance. *)
Theorem audit_order_preserved s :
  (∀ n m, (n ≤ m)%nat → (utcnow n ≤ utcnow m)%Z) →
  wf s → audit_inv s →
  (∀ table data l s',
      pending s = [] →
      getattr (deref s data) "created_at" = VNone →
      getattr (deref s data) "updated_at" = VNone →
      create_item s table data = (Ok l, s') → audit_inv s') ∧
  (∀ id data table l s',
      quiet s →
      truthy (getattr data "created_at") = false →
      update_item s id data table = (Ok l, s') → audit_inv s').
Proof.
  intros Hmono Hwf Hinv. split.
  - intros table data l s' Hp Hc Hu Hrun.
    destruct (decide (data ∈ rows s)) as [Hin | Hnin].
    { destruct (Hinv data Hin) as (c & u & Hc' & _). congruence. }
    destruct (apply_defaults_timestamps (deref s data) s Hc Hu)
      as (o' & d' & Hdef & Hcls' & Hcr & Hup & _).
    destruct (create_item_flush s data Hp Hnin) as (o2 & n2 & d2 & Hdef2 & Hcases).
    rewrite Hdef in Hdef2. injection Hdef2 as <- <- <-.
    rewrite create_item_unfold in Hrun.
    destruct Hcases as [[_ [s2 Hflush]] | [_ Hflush]]; rewrite Hflush in Hrun; [done|].
    rewrite read_item_by_id_quiet in Hrun by (by right).
    injection Hrun as _ <-. intros l' Hl'. simpl in Hl'. unfold deref. simpl.
    apply elem_of_app in Hl' as [Hl' | ->%list_elem_of_singleton].
    + rewrite lookup_total_insert_ne by (intros ->; done).
      destruct (Hinv l' Hl') as (c & u & ? & ? & ? & Hb).
      exists c, u. repeat split; try done.
      etrans; [exact Hb|]. apply Hmono. lia.
    + rewrite lookup_total_insert_eq.
      exists (utcnow (ticks s)), (utcnow (S (ticks s))).
      repeat split; try done; apply Hmono; lia.
  - intros id data table l s' Hq Hfalsy Hrun.
    destruct (read_item_by_id (set_ticks (S (ticks s)) s) table id) as [[l0 | e] s2] eqn:Hread;
      [| by rewrite (update_item_propagates _ _ _ _ _ _ Hread) in Hrun].
    destruct (update_item_found s id data table l0 _ Hread) as (o' & Hup & _ & Hnow & Hattr).
    rewrite Hup in Hrun. injection Hrun as <- <-.
    pose proof (read_item_by_id_found _ _ _ _ _ Hread) as (Hl0 & _).
    rewrite read_item_by_id_quiet in Hread by done. injection Hread as _ <-.
    simpl in Hl0. intros l' Hl'. simpl in Hl'. unfold deref. simpl.
    destruct (decide (l' = l0)) as [-> | Hne].
    + rewrite lookup_total_insert_eq.
      destruct (Hinv l0 Hl0) as (c & u & Hc & _ & _ & Hb).
      exists c, (utcnow (ticks s)). split; [|split; [done|split; [done|]]].
      * rewrite Hattr by done. rewrite decide_False by (intros [_ ?]; congruence).
        exact Hc.
      * etrans; [exact Hb|]. apply Hmono. lia.
    + rewrite lookup_total_insert_ne by done.
      destruct (Hinv l' Hl') as (c & u & ? & ? & ? & Hb).
      exists c, u. repeat split; try done.
      etrans; [exact Hb|]. apply Hmono. lia.
Qed.

End Lifetime.

(** ** What the reads return *)

Section ReadOutcomes.
Context `{World}.

Lemma flushed_quiet s : flushed s → quiet s.
Proof.
  intros [s0 Hflush]. rewrite flush_unfold in Hflush.
  apply do_flush_ok in Hflush as [_ Hp]. by right.
Qed.

(** The rows that meet a criterion, counted by position. *)
Lemma filter_sole_position {A} (P : A → Prop) `{∀ x, Decision (P x)}
    (r : list A) (i : nat) (x : A) :
  r !! i = Some x → P x → (∀ j y, r !! j = Some y → P y → j = i) →
  filter P r = [x].
Proof.
  intros Hi HP Hsole.
  rewrite <- (take_drop_middle r i x Hi).
  rewrite filter_app, filter_cons_True by done.
  rewrite (filter_none P (take i r)), (filter_none P (drop (S i) r)); [done | |].
  - intros y Hy HPy. apply list_elem_of_lookup in Hy as [j Hj].
    rewrite lookup_drop in Hj. specialize (Hsole _ _ Hj HPy). lia.
  - intros y Hy HPy. apply list_elem_of_lookup in Hy as [j Hj].
    apply lookup_take_Some in Hj as [Hj Hlt]. specialize (Hsole _ _ Hj HPy). lia.
Qed.



(** [read_items_by_attrs] executes one statement: the [select] of the
    table with one criterion per filter whose value is not [None]. *)
Lemma read_items_by_attrs_statement s table kwargs :
  known_filters table kwargs →
  read_items_by_attrs s table kwargs =
    execute (Select table (filter (λ kv, kv.2 ≠ VNone) kwargs)) s.
Proof.
  intros Hkw. unfold read_items_by_attrs, bind, lift, ret, all.
  rewrite add_filters_ok by done. simpl.
  by destruct (execute _ s) as [[r | e] s2].
Qed.



End ReadOutcomes.

(** ** The claims at concrete inputs *)

Section Checks.
Import Example.
#[local] Existing Instance world.

Lemma update_item_applies_truthy_witness :
  ∃ s', update_item db (VUuid 100) patch users = (Ok 0%nat, s') ∧
    cls (deref s' 0%nat) = cls (deref db 0%nat) ∧
    getattr (deref s' 0%nat) "updated_at" = VTime (utcnow (ticks db)) ∧
    (∀ k, k ≠ "updated_at" →
       getattr (deref s' 0%nat) k =
         if decide (k ∈ columns (cls patch) ∧ truthy (getattr patch k) = true)
         then getattr patch k else getattr (deref db 0%nat) k) ∧
    (∀ l', l' ≠ 0%nat → heap s' !! l' = heap db !! l').
Proof.
  apply (update_item_applies_truthy db (VUuid 100) patch users 0%nat).
  - apply NoDup_singleton.
  - right. reflexivity.
  - repeat split; [left | vm_compute; reflexivity..].
  - intros l' [Hin _]. simpl in Hin. by apply list_elem_of_singleton in Hin.
Defined.

(** C2 fails as stated: a payload carrying an identifier and a creation
    time replaces both on the record. *)
Lemma update_item_overwrites_server_fields :
  (update_item db (VUuid 100) forged users).1 = Ok 0%nat ∧
  getattr (deref db 0%nat) "id" = VUuid 100 ∧
  getattr (deref (update_item db (VUuid 100) forged users).2 0%nat) "id" = VUuid 7 ∧
  getattr (deref db 0%nat) "created_at" = VTime 0 ∧
  getattr (deref (update_item db (VUuid 100) forged users).2 0%nat) "created_at" =
    VTime 100.
Proof. vm_compute. repeat split. Qed.

(** The scenario of the specification: Alice with count 5 and active
    true, updated with name Bob, count 0 and active false. *)
Example update_scenario :
  let r := update_item db (VUuid 100) patch users in
  r.1 = Ok 0%nat ∧
  getattr (deref r.2 0%nat) "name" = VStr "Bob" ∧
  getattr (deref r.2 0%nat) "count" = VInt 5 ∧
  getattr (deref r.2 0%nat) "active" = VBool true ∧
  getattr (deref r.2 0%nat) "created_at" = VTime 0 ∧
  getattr (deref r.2 0%nat) "updated_at" = VTime 2.
Proof. vm_compute. repeat split. Qed.

Lemma wf_db : wf db.
Proof. unfold wf. simpl. apply NoDup_singleton. Defined.

Lemma server_fields_preserved_witness :
  getattr (deref (update_item db (VUuid 100) patch users).2 0%nat) "id" =
    getattr (deref db 0%nat) "id" ∧
  getattr (deref (update_item db (VUuid 100) patch users).2 0%nat) "created_at" =
    getattr (deref db 0%nat) "created_at".
Proof.
  apply (proj2 (proj2 (proj2
           (server_fields_preserved db 0%nat wf_db ltac:(left))))
           (VUuid 100) patch users); vm_compute; reflexivity.
Defined.

Lemma flushed_db : flushed (logged CFlush db).
Proof. exists db. reflexivity. Defined.


Lemma flushed_pair : flushed (logged CFlush pair).
Proof. exists pair. reflexivity. Defined.




Lemma read_items_by_attrs_unknown_column_witness :
  read_items_by_attrs db users [("name", VStr "Alice"); ("status", VStr "open")] =
    (Err (KeyError "status"), db).
Proof.
  apply (proj1 (proj2
           (read_items_by_attrs_unknown_column db users
              [("name", VStr "Alice"); ("status", VStr "open")]
              "status" (VStr "open")
              ltac:(right; left) ltac:(discriminate)
              ltac:(apply (bool_decide_unpack _); vm_compute; exact I)))
           [("name", VStr "Alice")] []).
  - reflexivity.
  - intros kv ->%list_elem_of_singleton. right.
    apply (bool_decide_unpack _). vm_compute. exact I.
Defined.

Lemma update_item_not_found_witness :
  (update_item db (VUuid 5) patch users).1 = Err NoResultFound ∧
  (update_item db (VUuid 5) patch users).1 = (read_item_by_id db users (VUuid 5)).1 ∧
  heap (update_item db (VUuid 5) patch users).2 = heap db ∧
  rows (update_item db (VUuid 5) patch users).2 = rows db ∧
  pending (update_item db (VUuid 5) patch users).2 = pending db.
Proof.
  apply (update_item_not_found db (VUuid 5) patch users).
  - right. reflexivity.
  - intros l (Hin & _ & Hid). apply list_elem_of_singleton in Hin as ->.
    vm_compute in Hid. discriminate.
Defined.

Lemma update_item_no_persistence_witness :
  calls (update_item db (VUuid 100) patch users).2 = calls db ++ [CExecute] ∧
  rows (update_item db (VUuid 100) patch users).2 = rows db ∧
  pending (update_item db (VUuid 100) patch users).2 = pending db ∧
  0%nat ∈ rows (update_item db (VUuid 100) patch users).2 ∧
  getattr (deref (update_item db (VUuid 100) patch users).2 0%nat) "updated_at" =
    VTime 2 ∧
  getattr (deref (update_item db (VUuid 100) patch users).2 0%nat) "name" =
    VStr "Bob" ∧
  getattr (deref (update_item db (VUuid 100) patch users).2 0%nat) "count" =
    VInt 5.
Proof.
  destruct (update_item_no_persistence db (VUuid 100) patch users) as (Hc & Hq & Hl).
  destruct (Hq (or_intror eq_refl)) as [Hr Hp].
  destruct (Hl 0%nat ltac:(vm_compute; reflexivity))
    as (_ & Hin & _ & _ & _ & Hnow & Hattr & _).
  pose proof (Hattr "name" ltac:(discriminate)) as Hname.
  pose proof (Hattr "count" ltac:(discriminate)) as Hcount.
  rewrite decide_True in Hname
    by (split; [apply (bool_decide_unpack _); vm_compute; exact I | reflexivity]).
  rewrite decide_False in Hcount by (intros [_ Ht]; vm_compute in Ht; discriminate).
  exact (conj Hc (conj Hr (conj Hp (conj Hin (conj Hnow (conj Hname Hcount)))))).
Defined.

(** With the lookup's automatic flush inserting a staged instance that the
    update then modifies, the clock reading of the update precedes the
    readings of the insertion: the record ends with [created_at] after
    [updated_at]. *)
Lemma update_item_after_staged_insert :
  (update_item staged_dave (VUuid 9) patch users).1 = Ok 1%nat ∧
  getattr (deref (update_item staged_dave (VUuid 9) patch users).2 1%nat)
    "created_at" = VTime 3 ∧
  getattr (deref (update_item staged_dave (VUuid 9) patch users).2 1%nat)
    "updated_at" = VTime 2.
Proof. vm_compute. repeat split. Qed.

Lemma create_item_spec_witness :
  create_item blank users 0%nat =
    (Ok 0%nat, logged CExecute (flush (add 0%nat blank).2).2) ∧
  create_item blank orders 0%nat =
    (Err NoResultFound, logged CExecute (flush (add 0%nat blank).2).2).
Proof.
  assert (Hflush : flush (add 0%nat blank).2 = (Ok tt, (flush (add 0%nat blank).2).2)).
  { vm_compute. reflexivity. }
  assert (Hrows : rows (flush (add 0%nat blank).2).2 = [0%nat]).
  { vm_compute. reflexivity. }
  split.
  - apply (create_item_spec blank users 0%nat _ Hflush).
    + rewrite Hrows. apply NoDup_singleton.
    + repeat split; [rewrite Hrows; left | vm_compute; reflexivity..].
    + intros l' [Hin _]. rewrite Hrows in Hin. by apply list_elem_of_singleton in Hin.
  - apply (create_item_spec blank orders 0%nat _ Hflush).
    intros l (Hin & Hcls & _). rewrite Hrows in Hin.
    apply list_elem_of_singleton in Hin as ->.
    vm_compute in Hcls. discriminate.
Defined.

(** C6 fails as stated: the two timestamps of a new record are two
    clock readings, and here the clock advances between them. *)
Lemma create_item_timestamps_differ :
  (create_item blank users 0%nat).1 = Ok 0%nat ∧
  (read_item_by_id (create_item blank users 0%nat).2 users
     (getattr (deref (create_item blank users 0%nat).2 0%nat) "id")).1 = Ok 0%nat ∧
  getattr (deref (create_item blank users 0%nat).2 0%nat) "created_at" = VTime 0 ∧
  getattr (deref (create_item blank users 0%nat).2 0%nat) "updated_at" = VTime 1 ∧
  getattr (deref (create_item blank users 0%nat).2 0%nat) "created_at" ≠
    getattr (deref (create_item blank users 0%nat).2 0%nat) "updated_at".
Proof. vm_compute. repeat split. discriminate. Qed.

Lemma create_then_read_witness :
  ∃ s', create_item blank users 0%nat = (Ok 0%nat, s') ∧
    read_item_by_id s' users (getattr (deref s' 0%nat) "id") =
      (Ok 0%nat, logged CExecute s') ∧
    getattr (deref s' 0%nat) "name" = getattr (deref blank 0%nat) "name" ∧
    getattr (deref s' 0%nat) "created_at" = VTime (utcnow (ticks blank)) ∧
    getattr (deref s' 0%nat) "updated_at" = VTime (utcnow (S (ticks blank))).
Proof.
  destruct (create_then_read blank users 0%nat)
    as (s' & Hrun & Hread & Hattr & _ & _ & Hc & Hu & _).
  - unfold wf. simpl. apply NoDup_nil_2.
  - reflexivity.
  - apply not_elem_of_nil.
  - vm_compute. reflexivity.
  - vm_compute. reflexivity.
  - vm_compute. reflexivity.
  - vm_compute. reflexivity.
  - intros l Hl. by apply elem_of_nil in Hl.
  - exists s'. repeat split; try done.
    apply Hattr. apply (bool_decide_unpack _). vm_compute. exact I.
Defined.

Lemma clock_monotone n m : (n ≤ m)%nat → (utcnow n ≤ utcnow m)%Z.
Proof. simpl. lia. Defined.

Lemma audit_inv_db : audit_inv db.
Proof.
  intros l Hl. apply list_elem_of_singleton in Hl as ->.
  exists 0%Z, 1%Z. repeat split; [vm_compute; reflexivity.. | lia | simpl; lia].
Defined.

(** C7 fails as stated: with a clock that only advances, an update whose
    payload carries a later creation time leaves the record with
    [created_at] after [updated_at]. *)
Lemma update_item_breaks_audit_order :
  (∀ n m, (n ≤ m)%nat → (utcnow n ≤ utcnow m)%Z) ∧
  audit_ordered (deref db 0%nat) ∧
  (update_item db (VUuid 100) forged users).1 = Ok 0%nat ∧
  ¬ audit_ordered (deref (update_item db (VUuid 100) forged users).2 0%nat).
Proof.
  split; [apply clock_monotone|]. split; [|split].
  - exists 0%Z, 1%Z. repeat split; [vm_compute; reflexivity.. | lia].
  - vm_compute. reflexivity.
  - intros (c & u & Hc & Hu & Hle).
    vm_compute in Hc, Hu. injection Hc as <-. injection Hu as <-. lia.
Qed.

Lemma audit_order_preserved_witness :
  audit_inv (update_item db (VUuid 100) patch users).2 ∧
  audit_inv (create_item blank users 0%nat).2.
Proof.
  split.
  - apply (proj2 (audit_order_preserved db clock_monotone wf_db audit_inv_db)
             (VUuid 100) patch users 0%nat).
    + right. reflexivity.
    + vm_compute. reflexivity.
    + vm_compute. reflexivity.
  - assert (Hwf : wf blank) by (unfold wf; simpl; apply NoDup_nil_2).
    assert (Hinv : audit_inv blank) by (intros l Hl; by apply elem_of_nil in Hl).
    apply (proj1 (audit_order_preserved blank clock_monotone Hwf Hinv)
             users 0%nat 0%nat).
    + reflexivity.
    + vm_compute. reflexivity.
    + vm_compute. reflexivity.
    + vm_compute. reflexivity.
Defined.

End Checks.

(** ** Further properties of the reads *)

Section MoreReads.
Context `{World}.

Lemma read_items_by_attrs_quiet s table kwargs :
  quiet s → known_filters table kwargs →
  read_items_by_attrs s table kwargs =
    (Ok (filter (meets s table kwargs) (rows s)), logged CExecute s).
Proof.
  intros Hq Hkw. unfold read_items_by_attrs, bind, lift, ret, all.
  rewrite add_filters_ok by done. simpl. rewrite execute_quiet by done.
  f_equal. f_equal. apply list_filter_iff. intros l. apply selected_filters.
Qed.

Lemma meets_app s table kw1 kw2 l :
  meets s table (kw1 ++ kw2) l ↔ meets s table kw1 l ∧ meets s table kw2 l.
Proof. unfold meets. rewrite Forall_app. tauto. Qed.

(** X1: on a session with nothing awaiting an automatic flush, a read
    leaves the objects and the rows as they were, so that the same read
    made again gives the same outcome. *)
Theorem reads_repeatable s table id kwargs :
  quiet s →
  ((read_item_by_id (read_item_by_id s table id).2 table id).1 =
     (read_item_by_id s table id).1 ∧
   heap (read_item_by_id s table id).2 = heap s ∧
   rows (read_item_by_id s table id).2 = rows s) ∧
  ((read_items_by_attrs (read_items_by_attrs s table kwargs).2 table kwargs).1 =
     (read_items_by_attrs s table kwargs).1 ∧
   heap (read_items_by_attrs s table kwargs).2 = heap s ∧
   rows (read_items_by_attrs s table kwargs).2 = rows s).
Proof.
  intros Hq. split.
  - rewrite (read_item_by_id_quiet s) by done. simpl.
    rewrite read_item_by_id_quiet by done. done.
  - unfold read_items_by_attrs, bind, lift, ret, all.
    destruct (add_filters table (select table) kwargs) as [stmt | e]; [|done].
    rewrite (execute_quiet stmt s) by done. simpl.
    rewrite execute_quiet by done. done.
Qed.

(** X2: [read_item_by_id] is [.one()] of what [read_items_by_attrs]
    returns for the single filter [id]: both execute the same statement,
    whatever the session.  On a session whose changes have been flushed
    that list holds exactly the records of the table with this
    identifier. *)
Theorem read_item_by_id_as_filter s table u :
  read_item_by_id s table (VUuid u) =
    (let! res := (λ s0, read_items_by_attrs s0 table [("id", VUuid u)]) in
     lift (one res)) s ∧
  (flushed s →
   ∃ res,
     read_items_by_attrs s table [("id", VUuid u)] = (Ok res, logged CExecute s) ∧
     (∀ l, l ∈ res ↔ has_id s table (VUuid u) l)).
Proof.
  assert (Hknown : known_filters table [("id", VUuid u)]).
  { intros k v Hin _. apply list_elem_of_singleton in Hin as [= -> ->].
    unfold columns, base_columns. apply elem_of_app. left. left. }
  split.
  - unfold bind at 1. rewrite read_items_by_attrs_statement by done.
    rewrite read_item_by_id_unfold.
    rewrite filter_cons_True, filter_nil by done.
    unfold lift, where_eq, select. simpl.
    by destruct (execute _ s) as [[r | e] s2].
  - intros Hq%flushed_quiet.
    exists (filter (meets s table [("id", VUuid u)]) (rows s)). split.
    + by apply read_items_by_attrs_quiet.
    + intros l. rewrite list_elem_of_filter. unfold has_id, meets.
      rewrite Forall_singleton. simpl. split.
      * intros [[Hc Hi] Hin]. repeat split; [done.. | by apply Hi].
      * intros (Hin & Hc & Hi). done.
Qed.

(** X3: the outcome of [read_items_by_attrs] depends on the filters only
    through the set of those whose value is not [None]: their order,
    their repetition and the filters whose value is [None] are
    immaterial. *)
Theorem read_items_by_attrs_filter_set s table kw1 kw2 :
  quiet s → known_filters table kw1 →
  (∀ kv, kv.2 ≠ VNone → (kv ∈ kw1 ↔ kv ∈ kw2)) →
  read_items_by_attrs s table kw1 = read_items_by_attrs s table kw2.
Proof.
  intros Hq Hk1 Hsame.
  assert (Hk2 : known_filters table kw2).
  { intros k v Hin Hv. apply (Hk1 k v); [|done]. by apply (Hsame (k, v)). }
  rewrite !read_items_by_attrs_quiet by done.
  f_equal. f_equal. apply list_filter_iff. intros l. unfold meets.
  rewrite !Forall_forall. split; intros [Hc Hall]; (split; [done|]);
    intros kv Hin Hv; apply Hall; try done; by apply Hsame.
Qed.

(** X4: further filters narrow the result.  On a session whose changes
    have been flushed, with filter values of the kind their columns hold,
    what [read_items_by_attrs] returns for the filters [kwargs ++ more]
    is, in some order, what it returns for [kwargs] restricted to the
    records that meet [more]; every record of the narrower result is in
    the wider one, and every record returned is a row of the table. *)
Theorem read_items_by_attrs_narrows s table kwargs more :
  flushed s → known_filters table (kwargs ++ more) →
  typed_filters s table (kwargs ++ more) →
  ∃ r1 r2,
    read_items_by_attrs s table kwargs = (Ok r1, logged CExecute s) ∧
    read_items_by_attrs s table (kwargs ++ more) = (Ok r2, logged CExecute s) ∧
    r2 ≡ₚ filter (meets s table more) r1 ∧
    (∀ l, l ∈ r2 ↔ l ∈ r1 ∧ meets s table more l) ∧
    (∀ l, l ∈ r1 → l ∈ rows s ∧ cls (deref s l) = table).
Proof.
  intros Hq%flushed_quiet Hkw _.
  assert (Hk1 : known_filters table kwargs).
  { intros k v Hin. apply Hkw. apply elem_of_app. by left. }
  exists (filter (meets s table kwargs) (rows s)),
         (filter (meets s table (kwargs ++ more)) (rows s)).
  rewrite !read_items_by_attrs_quiet by done.
  assert (Heq : filter (meets s table (kwargs ++ more)) (rows s) =
                filter (meets s table more) (filter (meets s table kwargs) (rows s))).
  { rewrite list_filter_filter. apply list_filter_iff. intros l.
    rewrite meets_app. tauto. }
  split; [done|]. split; [done|]. split; [by rewrite Heq|]. split.
  - intros l. rewrite Heq, list_elem_of_filter. tauto.
  - intros l [[Hc _] Hin]%list_elem_of_filter. done.
Qed.

End MoreReads.

(** ** Further properties of [update_item] *)

Section MoreUpdates.
Context `{World}.

(** The session after [update_item] has found its one record. *)
Lemma update_item_sole s id data table l :
  NoDup (rows s) → quiet s →
  has_id s table id l → (∀ l', has_id s table id l' → l' = l) →
  ∃ o',
    update_item s id data table =
      (Ok l, set_heap (<[l := o']> (heap s))
               (logged CExecute (set_ticks (S (ticks s)) s))) ∧
    cls o' = cls (deref s l) ∧
    getattr o' "updated_at" = VTime (utcnow (ticks s)) ∧
    ∀ k, k ≠ "updated_at" →
      getattr o' k =
        if decide (k ∈ columns (cls data) ∧ truthy (getattr data k) = true)
        then getattr data k else getattr (deref s l) k.
Proof.
  intros Hnd Hq Hl Hsole.
  pose proof (read_item_by_id_sole (set_ticks (S (ticks s)) s) table id l Hnd Hq Hl Hsole)
    as Hread.
  destruct (update_item_found s id data table l _ Hread) as (o' & Hup & Hcls & Hnow & Hattr).
  exists o'. done.
Qed.

(** Which records have a given identifier once one object is replaced. *)
Lemma has_id_replaced s l o' table id l' :
  l ∈ rows s →
  has_id (set_heap (<[l := o']> (heap s)) s) table id l' ↔
    (l' = l ∧ cls o' = table ∧ getattr o' "id" = id) ∨
    (l' ≠ l ∧ has_id s table id l').
Proof.
  intros Hl. unfold has_id, deref. simpl.
  destruct (decide (l' = l)) as [-> | Hne].
  - rewrite lookup_total_insert_eq. split.
    + intros (_ & ? & ?). by left.
    + intros [(_ & ? & ?) | [? _]]; done.
  - rewrite lookup_total_insert_ne by done. split.
    + intros ?. by right.
    + intros [[? _] | [_ ?]]; done.
Qed.

Lemma id_is_column table : "id" ∈ columns table.
Proof. unfold columns, base_columns. apply elem_of_app. left. left. Qed.

(** X5: when the lookup of [update_item] raises, whatever the error,
    [update_item] raises the same error after having read the clock once,
    and the objects, the rows and the staged instances are as before. *)
Theorem update_item_lookup_error s id data table e :
  quiet s → (read_item_by_id s table id).1 = Err e →
  (update_item s id data table).1 = Err e ∧
  heap (update_item s id data table).2 = heap s ∧
  rows (update_item s id data table).2 = rows s ∧
  pending (update_item s id data table).2 = pending s ∧
  ticks (update_item s id data table).2 = S (ticks s) ∧
  calls (update_item s id data table).2 = calls s ++ [CExecute].
Proof.
  intros Hq He. rewrite read_item_by_id_quiet in He by done. simpl in He.
  assert (Hread : read_item_by_id (set_ticks (S (ticks s)) s) table id =
                    (Err e, logged CExecute (set_ticks (S (ticks s)) s))).
  { rewrite read_item_by_id_quiet by done. f_equal. exact He. }
  by rewrite (update_item_propagates _ _ _ _ _ _ Hread).
Qed.

(** X6: an update whose payload carries no truthy [id] can be read back:
    [read_item_by_id] with the same identifier then returns the updated
    record. *)
Theorem update_then_read s id data table l :
  NoDup (rows s) → quiet s →
  has_id s table id l → (∀ l', has_id s table id l' → l' = l) →
  truthy (getattr data "id") = false →
  ∃ s', update_item s id data table = (Ok l, s') ∧
        read_item_by_id s' table id = (Ok l, logged CExecute s') ∧
        getattr (deref s' l) "updated_at" = VTime (utcnow (ticks s)).
Proof.
  intros Hnd Hq Hl Hsole Hfalsy.
  destruct (update_item_sole s id data table l Hnd Hq Hl Hsole)
    as (o' & Hup & Hcls & Hnow & Hattr).
  eexists. split; [exact Hup|].
  pose proof Hl as (Hin & Hc & Hi).
  assert (Hid : getattr o' "id" = id).
  { rewrite Hattr by done. rewrite decide_False by (intros [_ ?]; congruence). done. }
  split.
  - apply read_item_by_id_sole; [done | done | |].
    + apply (has_id_replaced (logged CExecute (set_ticks (S (ticks s)) s))); [done|].
      left. repeat split; [congruence | done].
    + intros l' Hl'.
      apply (has_id_replaced (logged CExecute (set_ticks (S (ticks s)) s))) in Hl';
        [|done].
      destruct Hl' as [[-> _] | [_ Hl']]; [done | by apply Hsole].
  - unfold deref. simpl. by rewrite lookup_total_insert_eq.
Qed.

(** X7: on a session that flushes automatically, an update whose payload
    carries a truthy [id], different from the one looked up and not used
    in the table, moves the record to it: afterwards the old identifier
    finds nothing and the new one finds the record. *)
Theorem update_item_rekeys s id data table l :
  NoDup (rows s) → autoflush s = true → pending s = [] →
  has_id s table id l → (∀ l', has_id s table id l' → l' = l) →
  truthy (getattr data "id") = true →
  getattr data "id" ≠ id →
  (∀ l', ¬ has_id s table (getattr data "id") l') →
  ∃ s', update_item s id data table = (Ok l, s') ∧
        read_item_by_id s' table id = (Err NoResultFound, logged CExecute s') ∧
        read_item_by_id s' table (getattr data "id") = (Ok l, logged CExecute s').
Proof.
  intros Hnd Hauto Hpend Hl Hsole Htruthy Hne Hfree.
  assert (Hq : quiet s) by (by right).
  destruct (update_item_sole s id data table l Hnd Hq Hl Hsole)
    as (o' & Hup & Hcls & Hnow & Hattr).
  eexists. split; [exact Hup|].
  pose proof Hl as (Hin & Hc & Hi).
  assert (Hid : getattr o' "id" = getattr data "id").
  { rewrite Hattr by done. rewrite decide_True; [done|]. split; [apply id_is_column | done]. }
  split.
  - apply read_item_by_id_none; [done|]. intros l' Hl'.
    apply (has_id_replaced (logged CExecute (set_ticks (S (ticks s)) s))) in Hl'; [|done].
    destruct Hl' as [(_ & _ & Hi') | [Hne' Hl']]; [congruence|].
    apply Hne'. by apply Hsole.
  - apply read_item_by_id_sole; [done | done | |].
    + apply (has_id_replaced (logged CExecute (set_ticks (S (ticks s)) s))); [done|].
      left. repeat split; [congruence | done].
    + intros l' Hl'.
      apply (has_id_replaced (logged CExecute (set_ticks (S (ticks s)) s))) in Hl';
        [|done].
      destruct Hl' as [[-> _] | [_ Hl']]; [done | by apply Hfree in Hl'].
Qed.

(** X8: applying the same payload a second time changes nothing but
    [updated_at]: when the payload carries no truthy [id], the second
    update returns the same record, every attribute other than
    [updated_at] is as the first update left it, and [updated_at] is the
    next clock reading. *)
Theorem update_item_twice s id data table l :
  NoDup (rows s) → quiet s →
  has_id s table id l → (∀ l', has_id s table id l' → l' = l) →
  truthy (getattr data "id") = false →
  ∃ s1 s2,
    update_item s id data table = (Ok l, s1) ∧
    update_item s1 id data table = (Ok l, s2) ∧
    (∀ k, k ≠ "updated_at" → getattr (deref s2 l) k = getattr (deref s1 l) k) ∧
    getattr (deref s1 l) "updated_at" = VTime (utcnow (ticks s)) ∧
    getattr (deref s2 l) "updated_at" = VTime (utcnow (S (ticks s))) ∧
    (∀ l', l' ≠ l → heap s2 !! l' = heap s !! l').
Proof.
  intros Hnd Hq Hl Hsole Hfalsy.
  destruct (update_item_sole s id data table l Hnd Hq Hl Hsole)
    as (o1 & Hup1 & Hcls1 & Hnow1 & Hattr1).
  set (s1 := set_heap (<[l := o1]> (heap s))
               (logged CExecute (set_ticks (S (ticks s)) s))) in *.
  pose proof Hl as (Hin & Hc & Hi).
  assert (Hid : getattr o1 "id" = id).
  { rewrite Hattr1 by done. rewrite decide_False by (intros [_ ?]; congruence). done. }
  assert (Hl1 : has_id s1 table id l).
  { apply (has_id_replaced (logged CExecute (set_ticks (S (ticks s)) s))); [done|].
    left. repeat split; [congruence | done]. }
  assert (Hsole1 : ∀ l', has_id s1 table id l' → l' = l).
  { intros l' Hl'.
    apply (has_id_replaced (logged CExecute (set_ticks (S (ticks s)) s))) in Hl'; [|done].
    destruct Hl' as [[-> _] | [_ Hl']]; [done | by apply Hsole]. }
  destruct (update_item_sole s1 id data table l Hnd Hq Hl1 Hsole1)
    as (o2 & Hup2 & Hcls2 & Hnow2 & Hattr2).
  assert (Hd1 : deref s1 l = o1).
  { unfold deref, s1. simpl. by rewrite lookup_total_insert_eq. }
  set (s2 := set_heap (<[l := o2]> (heap s1))
               (logged CExecute (set_ticks (S (ticks s1)) s1))) in *.
  assert (Hd2 : deref s2 l = o2).
  { unfold deref, s2. simpl. by rewrite lookup_total_insert_eq. }
  exists s1, s2. split; [exact Hup1|]. split; [exact Hup2|].
  rewrite Hd2, Hd1. split; [|split; [|split]].
  - intros k Hk. rewrite Hattr2, Hd1, Hattr1 by done. by destruct (decide _).
  - done.
  - exact Hnow2.
  - intros l' Hl'. unfold s2, s1. simpl. by rewrite !lookup_insert_ne.
Qed.

(** X9: an update neither adds nor removes a record and keeps every
    record in its table: on a session whose changes have been flushed,
    after a successful [update_item] whose payload carries no truthy
    [id], the listing without filters of each table holds the records it
    held before, in some order. *)
Theorem update_item_keeps_listing s id data table l s' :
  flushed s → truthy (getattr data "id") = false →
  update_item s id data table = (Ok l, s') →
  ∀ table', ∃ before after,
    (read_items_by_attrs s table' []).1 = Ok before ∧
    (read_items_by_attrs s' table' []).1 = Ok after ∧
    after ≡ₚ before.
Proof.
  intros Hq%flushed_quiet _ Hrun table'.
  destruct (read_item_by_id (set_ticks (S (ticks s)) s) table id) as [[l0 | e] s2] eqn:Hread;
    [| by rewrite (update_item_propagates _ _ _ _ _ _ Hread) in Hrun].
  destruct (update_item_found s id data table l0 _ Hread) as (o' & Hup & Hcls & _).
  rewrite Hup in Hrun. injection Hrun as <- <-.
  rewrite read_item_by_id_quiet in Hread by done. injection Hread as _ <-.
  assert (Hknown : known_filters table' []).
  { intros k v Hin. by apply elem_of_nil in Hin. }
  rewrite !read_items_by_attrs_quiet by done. simpl.
  eexists _, _. split; [done|]. split; [done|].
  erewrite list_filter_iff; [done|]. intros x. unfold meets, deref. simpl.
  destruct (decide (x = l0)) as [-> | Hne].
  - rewrite lookup_total_insert_eq. split; intros [Hc _]; (split; [|constructor]).
    + rewrite <- Hc. symmetry. exact Hcls.
    + rewrite <- Hc. exact Hcls.
  - by rewrite lookup_total_insert_ne.
Qed.

End MoreUpdates.

(** ** Further properties of [create_item] *)

Section MoreCreates.
Context `{World}.

(** [create_item] on an instance the session does not hold, with nothing
    else staged: the two outcomes of the INSERT, with the session each
    leaves. *)
Lemma create_item_insert s table data :
  pending s = [] → data ∉ rows s →
  ∃ o' n' d',
    apply_defaults (deref s data) s =
      (Ok o', Session (heap s) (rows s) (pending s) (autoflush s) n' d' (calls s)) ∧
    ((Exists (λ l', same_key (deref s l') o') (rows s) ∧
      create_item s table data =
        (Err IntegrityError,
         Session (heap s) (rows s) [data] (autoflush s) n' d'
           (calls s ++ [CAdd data; CFlush]))) ∨
     (¬ Exists (λ l', same_key (deref s l') o') (rows s) ∧
      create_item s table data =
        read_item_by_id
          (Session (<[data := o']> (heap s)) (rows s ++ [data]) []
             (autoflush s) n' d' (calls s ++ [CAdd data; CFlush]))
          table (getattr o' "id"))).
Proof.
  intros Hp Hd.
  destruct (apply_defaults_frame (deref s data) s) as (o' & n' & d' & Hdef & _).
  exists o', n', d'. split; [done|].
  rewrite create_item_unfold, add_unfold. simpl.
  rewrite decide_False by (rewrite Hp, app_nil_r; done).
  rewrite flush_unfold. unfold do_flush. simpl. rewrite Hp. simpl.
  set (s1 := logged CFlush (set_pending [data] (logged (CAdd data) s))).
  destruct (insert_row_cases data s1) as (o2 & n2 & d2 & Hdef2 & Hcases).
  pose proof (apply_defaults_indep _ s s1 o' n' d' eq_refl eq_refl Hdef) as Hdef1.
  assert (Heq : (Ok o2, Session (heap s1) (rows s1) (pending s1) (autoflush s1)
                          n2 d2 (calls s1)) =
                (Ok o', Session (heap s1) (rows s1) (pending s1) (autoflush s1)
                          n' d' (calls s1))).
  { rewrite <- Hdef2. exact Hdef1. }
  injection Heq as -> -> ->. clear Hdef2 Hdef1.
  destruct Hcases as [[Hex Hins] | [Hex Hins]]; [left | right];
    (split; [done|]); unfold bind at 1; rewrite Hins.
  - simpl. by rewrite <- app_assoc.
  - unfold bind, modify, ret. simpl. unfold set_pending, deref. simpl.
    rewrite lookup_total_insert_eq. by rewrite <- app_assoc.
Qed.

(** [create_item] when the INSERT goes through and the new key is the
    candidate's alone. *)
Lemma create_item_inserted s table data o' n' d' :
  wf s → pending s = [] → data ∉ rows s →
  apply_defaults (deref s data) s =
    (Ok o', Session (heap s) (rows s) (pending s) (autoflush s) n' d' (calls s)) →
  cls (deref s data) = table →
  (∀ l, l ∈ rows s → cls (deref s l) = table →
        getattr (deref s l) "id" ≠ getattr o' "id") →
  create_item s table data =
    (Ok data,
     logged CExecute
       (Session (<[data := o']> (heap s)) (rows s ++ [data]) []
          (autoflush s) n' d' (calls s ++ [CAdd data; CFlush]))).
Proof.
  intros Hwf Hp Hd Hdef Hcls Hfresh.
  destruct (apply_defaults_frame (deref s data) s) as (o2 & n2 & d2 & Hdef2 & Hcls' & _).
  rewrite Hdef in Hdef2. injection Hdef2 as <- <- <-.
  destruct (create_item_insert s table data Hp Hd) as (o2 & n2 & d2 & Hdef2 & Hcases).
  rewrite Hdef in Hdef2. injection Hdef2 as <- <- <-.
  destruct Hcases as [[Hex _] | [_ ->]].
  { exfalso. apply Exists_exists in Hex as (l' & Hl' & [Hk1 Hk2]).
    apply (Hfresh l' Hl'); congruence. }
  set (s2 := Session (<[data := o']> (heap s)) (rows s ++ [data]) []
               (autoflush s) n' d' (calls s ++ [CAdd data; CFlush])).
  assert (Hderef : deref s2 data = o').
  { unfold deref, s2. simpl. by rewrite lookup_total_insert_eq. }
  assert (Hold : ∀ l, l ∈ rows s → deref s2 l = deref s l).
  { intros l Hl. unfold deref, s2. simpl. rewrite lookup_total_insert_ne; [done|].
    intros ->. done. }
  apply read_item_by_id_sole.
  - unfold wf in Hwf. rewrite Hp, app_nil_r in Hwf. simpl.
    apply NoDup_app. split; [done|]. split; [|apply NoDup_singleton].
    intros x Hx ->%list_elem_of_singleton. done.
  - by right.
  - split; [|split].
    + simpl. apply elem_of_app. right. left.
    + rewrite Hderef. congruence.
    + by rewrite Hderef.
  - intros l' (Hin & Hc' & Hi'). simpl in Hin.
    apply elem_of_app in Hin as [Hin | ->%list_elem_of_singleton]; [|done].
    exfalso. rewrite Hold in Hc', Hi' by done. by apply (Hfresh l' Hin).
Qed.

(** X10: when the flush raises, [create_item] raises the same error and
    stops there: the session has recorded the [add] and the [flush], and
    no statement is executed. *)
Theorem create_item_flush_error s table data e s2 :
  flush (add data s).2 = (Err e, s2) →
  create_item s table data = (Err e, s2) ∧
  calls s2 = calls s ++ [CAdd data; CFlush].
Proof.
  intros Hflush. split.
  - by rewrite create_item_unfold, Hflush.
  - rewrite flush_unfold in Hflush. unfold do_flush in Hflush.
    apply flush_pending_frame in Hflush as (_ & _ & Hcalls & _).
    rewrite Hcalls, add_unfold. simpl.
    destruct (decide _); simpl; by rewrite <- app_assoc.
Qed.

(** X11: [id] is the primary key: a candidate whose identifier is the
    one of a row of its table is refused with [IntegrityError]; no row is
    added, no object is changed, and no statement is executed. *)
Theorem create_item_duplicate_id s table data l :
  pending s = [] → data ∉ rows s →
  getattr (deref s data) "id" ≠ VNone →
  l ∈ rows s → same_key (deref s l) (deref s data) →
  (create_item s table data).1 = Err IntegrityError ∧
  heap (create_item s table data).2 = heap s ∧
  rows (create_item s table data).2 = rows s ∧
  calls (create_item s table data).2 = calls s ++ [CAdd data; CFlush].
Proof.
  intros Hp Hd Hid Hl [Hk1 Hk2].
  destruct (create_item_insert s table data Hp Hd) as (o' & n' & d' & Hdef & Hcases).
  destruct (apply_defaults_frame (deref s data) s) as (o2 & n2 & d2 & Hdef2 & Hcls & _ & Hkeep & _).
  rewrite Hdef in Hdef2. injection Hdef2 as <- <- <-.
  destruct Hcases as [[_ ->] | [Hno _]]; [done|].
  exfalso. apply Hno. apply Exists_exists. exists l. split; [done|].
  split; [congruence|]. rewrite Hkeep by done. done.
Qed.

(** X12: the defaults of [Base] fire only for what the candidate lacks:
    a candidate that carries an identifier unused in its table is created
    under that identifier, none is drawn, and every attribute the
    candidate holds, audit timestamps included, is kept. *)
Theorem create_item_keeps_supplied s table data :
  wf s → pending s = [] → data ∉ rows s →
  cls (deref s data) = table →
  getattr (deref s data) "id" ≠ VNone →
  (∀ l, l ∈ rows s → cls (deref s l) = table →
        getattr (deref s l) "id" ≠ getattr (deref s data) "id") →
  ∃ s', create_item s table data = (Ok data, s') ∧
        draws s' = draws s ∧
        (∀ k, getattr (deref s data) k ≠ VNone →
              getattr (deref s' data) k = getattr (deref s data) k) ∧
        (∀ k, k ∈ base_columns → getattr (deref s' data) k ≠ VNone).
Proof.
  intros Hwf Hp Hd Hcls Hid Hfresh.
  destruct (apply_defaults_frame (deref s data) s)
    as (o' & n' & d' & Hdef & Hcls' & _ & Hkeep & _).
  assert (Hd' : d' = draws s).
  { pose proof Hdef as Hdef'. rewrite apply_defaults_eq in Hdef'. simpl in Hdef'.
    injection Hdef' as _ _ <-. unfold bump. apply is_none_false in Hid. by rewrite Hid. }
  set (s' := logged CExecute
               (Session (<[data := o']> (heap s)) (rows s ++ [data]) []
                  (autoflush s) n' d' (calls s ++ [CAdd data; CFlush]))).
  assert (Hderef : deref s' data = o').
  { unfold deref, s'. simpl. by rewrite lookup_total_insert_eq. }
  exists s'. split.
  - apply (create_item_inserted s table data o' n' d'); try done.
    intros l Hl Hc. rewrite Hkeep by done. by apply Hfresh.
  - rewrite Hderef. split; [done|]. split; [exact Hkeep|].
    by apply (apply_defaults_filled _ _ _ _ Hdef).
Qed.

(** X13: creating a record again is harmless: for an instance that is
    already the one row of the table with its identifier, [create_item]
    returns it, and no row is added, no object changed, no clock reading
    taken and no identifier drawn. *)
Theorem create_item_again s table data :
  NoDup (rows s) → pending s = [] →
  has_id s table (getattr (deref s data) "id") data →
  (∀ l', has_id s table (getattr (deref s data) "id") l' → l' = data) →
  ∃ s', create_item s table data = (Ok data, s') ∧
        heap s' = heap s ∧ rows s' = rows s ∧ pending s' = [] ∧
        ticks s' = ticks s ∧ draws s' = draws s ∧
        calls s' = calls s ++ [CAdd data; CFlush; CExecute].
Proof.
  intros Hnd Hp Hl Hsole. pose proof Hl as (Hin & _).
  rewrite create_item_unfold, add_unfold. simpl.
  rewrite decide_True by (apply elem_of_app; by left).
  rewrite flush_unfold. unfold do_flush. simpl. rewrite Hp. simpl.
  eexists. split.
  - apply read_item_by_id_sole; [done | by right | exact Hl | exact Hsole].
  - simpl. rewrite Hp. repeat split; try done.
    by rewrite <- !app_assoc.
Qed.

Lemma filter_ext_in {A} (P Q : A → Prop) `{∀ x, Decision (P x)} `{∀ x, Decision (Q x)}
    (l : list A) :
  (∀ x, x ∈ l → P x ↔ Q x) → filter P l = filter Q l.
Proof.
  induction l as [| a l IH]; intros Hext; [done|].
  rewrite !filter_cons.
  rewrite IH by (intros x Hx; apply Hext; by right).
  destruct (decide (P a)) as [HP | HP], (decide (Q a)) as [HQ | HQ]; try done;
    exfalso; apply (Hext a) in HP || apply (Hext a) in HQ; try done; left.
Qed.

(** X14: a record just created is listed: after a successful
    [create_item] of an instance the session did not hold, the listing
    without filters of the instance's table holds, in some order, the
    records it held before and the instance, and the listing of any other
    table holds the records it held before. *)
Theorem create_then_list s table data l s' :
  pending s = [] → data ∉ rows s →
  create_item s table data = (Ok l, s') →
  ∀ table', ∃ before after,
    (read_items_by_attrs s table' []).1 = Ok before ∧
    (read_items_by_attrs s' table' []).1 = Ok after ∧
    before ≡ₚ filter (λ x, cls (deref s x) = table') (rows s) ∧
    after ≡ₚ (if decide (cls (deref s data) = table') then [data] else []) ++ before.
Proof.
  intros Hp Hd Hrun table'.
  assert (Hq : quiet s) by (by right).
  assert (Hknown : known_filters table' []).
  { intros k v Hin. by apply elem_of_nil in Hin. }
  assert (Hmeets : ∀ s0 x, meets s0 table' [] x ↔ cls (deref s0 x) = table').
  { intros s0 x. unfold meets. split; [tauto | intros ?; split; [done | constructor]]. }
  destruct (create_item_insert s table data Hp Hd) as (o' & n' & d' & Hdef & Hcases).
  destruct (apply_defaults_frame (deref s data) s) as (o2 & n2 & d2 & Hdef2 & Hcls & _).
  rewrite Hdef in Hdef2. injection Hdef2 as <- <- <-.
  destruct Hcases as [[_ Herr] | [_ Hok]]; [rewrite Herr in Hrun; done|].
  rewrite Hok in Hrun. rewrite read_item_by_id_quiet in Hrun by (by right).
  injection Hrun as _ <-.
  rewrite !read_items_by_attrs_quiet by (done || by right). simpl.
  eexists _, _. split; [done|]. split; [done|].
  set (s2 := logged CExecute
               (Session (<[data := o']> (heap s)) (rows s ++ [data]) []
                  (autoflush s) n' d' (calls s ++ [CAdd data; CFlush]))).
  assert (Hderef : deref s2 data = o').
  { unfold deref, s2. simpl. by rewrite lookup_total_insert_eq. }
  assert (Hold : ∀ x, x ∈ rows s → deref s2 x = deref s x).
  { intros x Hx. unfold deref, s2. simpl. rewrite lookup_total_insert_ne; [done|].
    intros ->. done. }
  split.
  - erewrite list_filter_iff; [done|]. intros x. apply Hmeets.
  - rewrite filter_app, Permutation_app_comm. apply Permutation_app.
    + destruct (decide (cls (deref s data) = table')) as [Hc | Hc].
      * rewrite filter_cons_True; [done|]. apply Hmeets. rewrite Hderef. congruence.
      * rewrite filter_cons_False; [done|]. rewrite Hmeets, Hderef. congruence.
    + erewrite filter_ext_in; [done|]. intros x Hx. rewrite !Hmeets. by rewrite Hold.
Qed.

(** X18: the flush of [create_item] is the session's: a successful
    [create_item] makes rows of the instances that were staged before the
    call, in the order they were staged, and then of its candidate unless
    the session held it already; nothing is left staged. *)
Theorem create_item_flushes_staged s table data l s' :
  create_item s table data = (Ok l, s') →
  rows s' = rows s ++ pending s ++
              (if decide (data ∈ rows s ++ pending s) then [] else [data]) ∧
  pending s' = [].
Proof.
  rewrite create_item_unfold, flush_unfold.
  destruct (do_flush (logged CFlush (add data s).2)) as [[[] | e] s2] eqn:Hrun; [|done].
  apply do_flush_ok in Hrun as [Hrows Hpend].
  rewrite read_item_by_id_quiet by (by right). intros [= _ <-]. simpl.
  split; [|done]. rewrite Hrows. simpl. rewrite add_unfold. simpl.
  destruct (decide (data ∈ rows s ++ pending s)); simpl.
  - by rewrite app_nil_r.
  - done.
Qed.

End MoreCreates.

(** ** The primary key over the session's lifetime *)

Section Keys.
Context `{World}.

Lemma unique_keys_same s s' :
  heap s' = heap s → rows s' = rows s → unique_keys s → unique_keys s'.
Proof.
  intros Hh Hr Hu l1 l2. unfold deref. rewrite Hh, Hr. apply Hu.
Qed.

Lemma flush_pending_unique ls s r s' :
  NoDup (rows s ++ ls) → unique_keys s → flush_pending ls s = (r, s') →
  unique_keys s'.
Proof.
  revert s. induction ls as [| l rest IH]; intros s Hnd Hu Hrun.
  - by injection Hrun as _ <-.
  - simpl in Hrun. unfold bind at 1 in Hrun.
    destruct (insert_row_cases l s) as (o' & n' & d' & _ & [[_ Hins] | [Hno Hins]]);
      rewrite Hins in Hrun.
    + injection Hrun as _ <-. by apply (unique_keys_same s).
    + unfold bind, modify in Hrun. simpl in Hrun. apply IH in Hrun; [done | |].
      * simpl. by rewrite <- app_assoc.
      * assert (Hl : l ∉ rows s).
        { apply NoDup_app in Hnd as (_ & Hdisj & _). intros Hin.
          apply (Hdisj l Hin). left. }
        assert (Hold : ∀ x, x ∈ rows s →
                  (<[l := o']> (heap s) : gmap loc entity) !!! x = deref s x).
        { intros x Hx. rewrite lookup_total_insert_ne; [done|]. intros ->. done. }
        intros l1 l2 Hl1 Hl2. unfold deref. simpl in *.
        apply elem_of_app in Hl1 as [Hl1 | ->%list_elem_of_singleton];
          apply elem_of_app in Hl2 as [Hl2 | ->%list_elem_of_singleton].
        -- rewrite !Hold by done. by apply Hu.
        -- rewrite (Hold l1) by done. rewrite lookup_total_insert_eq. intros Hk.
           exfalso. apply Hno. apply Exists_exists. exists l1. split; [done | exact Hk].
        -- rewrite (Hold l2) by done. rewrite lookup_total_insert_eq. intros [Hk1 Hk2].
           exfalso. apply Hno. apply Exists_exists. exists l2.
           split; [done|]. split; congruence.
        -- done.
Qed.

Lemma execute_unique stmt s :
  wf s → unique_keys s → unique_keys (execute stmt s).2.
Proof.
  intros Hwf Hu. rewrite execute_unfold. destruct (autoflush s).
  - destruct (do_flush (logged CExecute s)) as [r s2] eqn:Hrun.
    unfold do_flush in Hrun. apply flush_pending_unique in Hrun; [|done..].
    by destruct r.
  - done.
Qed.

Lemma read_item_by_id_keeps_unique s table id :
  wf s → unique_keys s → unique_keys (read_item_by_id s table id).2.
Proof.
  intros Hwf Hu. rewrite read_item_by_id_unfold.
  pose proof (execute_unique (where_eq (select table) "id" id) s Hwf Hu) as Hx.
  by destruct (execute _ s) as [[r | e] s2].
Qed.

(** X15: the access layer keeps the primary key: on a session whose
    tables hold no two rows with one identifier, this still holds after
    [read_item_by_id], after [read_items_by_attrs], after [create_item],
    and after [update_item] with a payload that carries no truthy [id],
    whatever their outcome. *)
Theorem unique_keys_preserved s :
  wf s → unique_keys s →
  (∀ table id, unique_keys (read_item_by_id s table id).2) ∧
  (∀ table kwargs, unique_keys (read_items_by_attrs s table kwargs).2) ∧
  (∀ table data, unique_keys (create_item s table data).2) ∧
  (∀ id data table,
      truthy (getattr data "id") = false →
      unique_keys (update_item s id data table).2).
Proof.
  intros Hwf Hu. split; [|split; [|split]].
  - intros table id. by apply read_item_by_id_keeps_unique.
  - intros table kwargs. unfold read_items_by_attrs, bind, lift, ret.
    destruct (add_filters table (select table) kwargs) as [stmt | e]; [|done].
    pose proof (execute_unique stmt s Hwf Hu) as Hx.
    by destruct (execute stmt s) as [[r | e] s2].
  - intros table data. rewrite create_item_unfold.
    pose proof (add_wf data s Hwf) as Hwfa.
    assert (Hua : unique_keys (add data s).2).
    { rewrite add_unfold. simpl. by destruct (decide _). }
    rewrite flush_unfold.
    destruct (do_flush (logged CFlush (add data s).2)) as [r s2] eqn:Hrun.
    pose proof Hrun as Hrun'. unfold do_flush in Hrun'.
    apply flush_pending_unique in Hrun'; [|done..].
    destruct r as [[] | e]; [|done].
    apply do_flush_ok in Hrun as [_ Hpend].
    rewrite read_item_by_id_quiet by (by right). done.
  - intros id data table Hfalsy.
    pose proof (read_item_by_id_keeps_unique (set_ticks (S (ticks s)) s) table id Hwf Hu)
      as Hx.
    destruct (read_item_by_id (set_ticks (S (ticks s)) s) table id) as [[l0 | e] s2] eqn:Hread.
    + destruct (update_item_found s id data table l0 _ Hread) as (o' & -> & Hcls & _ & Hattr).
      simpl in *.
      assert (Hid : getattr o' "id" = getattr (deref s2 l0) "id").
      { rewrite Hattr by done. by rewrite decide_False by (intros [_ ?]; congruence). }
      assert (Hkey : ∀ x, cls ((<[l0 := o']> (heap s2) : gmap loc entity) !!! x) =
                           cls (deref s2 x) ∧
                         getattr ((<[l0 := o']> (heap s2) : gmap loc entity) !!! x) "id" =
                           getattr (deref s2 x) "id").
      { intros x. destruct (decide (x = l0)) as [-> | Hne].
        - by rewrite lookup_total_insert_eq.
        - by rewrite lookup_total_insert_ne. }
      intros l1 l2 Hl1 Hl2 [Hk1 Hk2]. unfold deref in Hk1, Hk2. simpl in *.
      apply (Hx l1 l2 Hl1 Hl2).
      destruct (Hkey l1) as [Ha1 Hb1], (Hkey l2) as [Ha2 Hb2].
      split; congruence.
    + by rewrite (update_item_propagates _ _ _ _ _ _ Hread).
Qed.

(** X16: on a session whose changes have been flushed and in which no
    two rows of a table share an identifier, the rows being counted by
    position, [read_item_by_id] never raises [MultipleResultsFound]: it
    returns the record that has the identifier when there is one, and
    raises [NoResultFound] otherwise. *)
Theorem read_item_by_id_unique_keys s table u :
  flushed s → keyed_once s →
  (read_item_by_id s table (VUuid u)).1 ≠ Err MultipleResultsFound ∧
  (∀ l, has_id s table (VUuid u) l → (read_item_by_id s table (VUuid u)).1 = Ok l) ∧
  ((∀ l, ¬ has_id s table (VUuid u) l) →
     (read_item_by_id s table (VUuid u)).1 = Err NoResultFound).
Proof.
  intros Hq%flushed_quiet Hk.
  assert (Hfound : ∀ l, has_id s table (VUuid u) l →
                        (read_item_by_id s table (VUuid u)).1 = Ok l).
  { intros l (Hin & Hc & Hi). apply list_elem_of_lookup in Hin as [i Hi'].
    rewrite read_item_by_id_quiet by done. simpl.
    rewrite (filter_sole_position _ (rows s) i l); try done.
    intros j l' Hj [Hc' Hid']. apply (Hk j i l' l Hj Hi').
    split; congruence. }
  assert (Hnone : (∀ l, ¬ has_id s table (VUuid u) l) →
                  (read_item_by_id s table (VUuid u)).1 = Err NoResultFound).
  { intros Hno. by rewrite read_item_by_id_none. }
  split; [|split; done].
  destruct (filter (λ l, cls (deref s l) = table ∧ getattr (deref s l) "id" = VUuid u)
              (rows s)) as [| a rest] eqn:Hf.
  - rewrite Hnone; [done|]. intros l (Hin & Hc & Hi).
    assert (Hl : l ∈ filter (λ l, cls (deref s l) = table ∧
                                  getattr (deref s l) "id" = VUuid u) (rows s)).
    { by apply list_elem_of_filter. }
    rewrite Hf in Hl. by apply elem_of_nil in Hl.
  - assert (Ha : a ∈ a :: rest) by left. rewrite <- Hf in Ha.
    apply list_elem_of_filter in Ha as [[Hc Hi] Hin].
    rewrite (Hfound a); [done|]. done.
Qed.

End Keys.

(** ** A record's life through the handlers of [BaseController] *)

Section Lifecycle.
Context `{World}.

(** The inserted instance is the one record with its identifier. *)
Lemma inserted_found s table data o' n' d' c :
  wf s → pending s = [] → data ∉ rows s → cls o' = table →
  (∀ l, l ∈ rows s → cls (deref s l) = table →
        getattr (deref s l) "id" ≠ getattr o' "id") →
  let s2 := Session (<[data := o']> (heap s)) (rows s ++ [data]) []
              (autoflush s) n' d' c in
  NoDup (rows s2) ∧ quiet s2 ∧ deref s2 data = o' ∧
  has_id s2 table (getattr o' "id") data ∧
  (∀ l', has_id s2 table (getattr o' "id") l' → l' = data).
Proof.
  intros Hwf Hp Hd Hcls Hfresh s2.
  assert (Hderef : deref s2 data = o').
  { unfold deref, s2. simpl. by rewrite lookup_total_insert_eq. }
  assert (Hold : ∀ l, l ∈ rows s → deref s2 l = deref s l).
  { intros l Hl. unfold deref, s2. simpl. rewrite lookup_total_insert_ne; [done|].
    intros ->. done. }
  split; [|split; [by right|split; [done|split]]].
  - unfold wf in Hwf. rewrite Hp, app_nil_r in Hwf. simpl.
    apply NoDup_app. split; [done|]. split; [|apply NoDup_singleton].
    intros x Hx ->%list_elem_of_singleton. done.
  - split; [|split].
    + simpl. apply elem_of_app. right. left.
    + by rewrite Hderef.
    + by rewrite Hderef.
  - intros l' (Hin & Hc' & Hi'). simpl in Hin.
    apply elem_of_app in Hin as [Hin | ->%list_elem_of_singleton]; [|done].
    exfalso. rewrite Hold in Hc', Hi' by done. by apply (Hfresh l' Hin).
Qed.

(** The updated record is still the one record with its identifier when
    the update kept its class and its identifier. *)
Lemma updated_found s table id l o' :
  has_id s table id l → (∀ l', has_id s table id l' → l' = l) →
  cls o' = cls (deref s l) → getattr o' "id" = id →
  let s' := set_heap (<[l := o']> (heap s)) s in
  deref s' l = o' ∧ has_id s' table id l ∧ (∀ l', has_id s' table id l' → l' = l).
Proof.
  intros Hl Hsole Hcls Hid s'. pose proof Hl as (Hin & Hc & Hi).
  split; [|split].
  - unfold deref, s'. simpl. by rewrite lookup_total_insert_eq.
  - apply has_id_replaced; [done|]. left. repeat split; [congruence | done].
  - intros l' Hl'. apply has_id_replaced in Hl'; [|done].
    destruct Hl' as [[-> _] | [_ Hl']]; [done | by apply Hsole].
Qed.

(** X17: a record's life through the four handlers.  A candidate of the
    controller's table that carries no identifier and no audit timestamp
    is created, read by its identifier, updated with a payload that
    carries no truthy [id], and read again: each handler returns the same
    record; its identifier is the one drawn at creation; [updated_at] is
    the clock reading of the update, the third of the sequence; an
    attribute outside the columns of [Base] holds the payload's value
    when that value is truthy and the candidate's otherwise; the session
    has recorded one [add], one [flush] and four executions; and the
    listing of the table then holds, in some order, the records it held
    before and the record. *)
Theorem controller_lifecycle s table data payload :
  wf s → pending s = [] → data ∉ rows s →
  cls (deref s data) = table →
  getattr (deref s data) "id" = VNone →
  getattr (deref s data) "created_at" = VNone →
  getattr (deref s data) "updated_at" = VNone →
  (∀ l, l ∈ rows s → cls (deref s l) = table →
        getattr (deref s l) "id" ≠ VUuid (uuid4 (draws s))) →
  truthy (getattr payload "id") = false →
  ∃ s1 s2 s3 s4,
    BaseController.create_item table s data = (Ok data, s1) ∧
    BaseController.get_item_by_id table s1 (VUuid (uuid4 (draws s))) = (Ok data, s2) ∧
    BaseController.update_item table s2 (VUuid (uuid4 (draws s))) payload = (Ok data, s3) ∧
    BaseController.get_item_by_id table s3 (VUuid (uuid4 (draws s))) = (Ok data, s4) ∧
    getattr (deref s4 data) "id" = VUuid (uuid4 (draws s)) ∧
    getattr (deref s4 data) "updated_at" = VTime (utcnow (S (S (ticks s)))) ∧
    (truthy (getattr payload "created_at") = false →
       getattr (deref s4 data) "created_at" = VTime (utcnow (ticks s))) ∧
    (∀ k, k ∉ base_columns →
       getattr (deref s4 data) k =
         if decide (k ∈ columns (cls payload) ∧ truthy (getattr payload k) = true)
         then getattr payload k else getattr (deref s data) k) ∧
    calls s4 = calls s ++ [CAdd data; CFlush; CExecute; CExecute; CExecute; CExecute] ∧
    (∃ before after,
       (BaseController.get_all_items table s []).1 = Ok before ∧
       (BaseController.get_all_items table s4 []).1 = Ok after ∧
       after ≡ₚ data :: before).
Proof.
  intros Hwf Hp Hd Hcls Hid Hc Hu Hfresh Hfalsy.
  unfold BaseController.create_item, BaseController.get_item_by_id,
    BaseController.update_item, BaseController.get_all_items.
  destruct (apply_defaults_timestamps (deref s data) s Hc Hu)
    as (o' & d' & Hdef & Hcls' & Hcr & Hup & Hidn & _ & Hother).
  destruct (Hidn Hid) as [Hid' ->].
  assert (Hfresh' : ∀ l, l ∈ rows s → cls (deref s l) = table →
                         getattr (deref s l) "id" ≠ getattr o' "id").
  { intros l Hl Hcl. rewrite Hid'. by apply Hfresh. }
  pose proof (create_item_inserted s table data o' _ _ Hwf Hp Hd Hdef Hcls Hfresh')
    as Hcreate.
  destruct (inserted_found s table data o' (S (S (ticks s))) (S (draws s))
              (calls s ++ [CAdd data; CFlush]) Hwf Hp Hd ltac:(congruence) Hfresh')
    as (Hnd1 & Hq1 & Hd1 & Hl1 & Hsole1).
  rewrite Hid' in Hl1, Hsole1.
  set (s0 := Session (<[data := o']> (heap s)) (rows s ++ [data]) []
               (autoflush s) (S (S (ticks s))) (S (draws s))
               (calls s ++ [CAdd data; CFlush])) in *.
  set (s1 := logged CExecute s0) in *.
  set (s2 := logged CExecute s1).
  destruct (update_item_sole s2 (VUuid (uuid4 (draws s))) payload table data
              Hnd1 Hq1 Hl1 Hsole1) as (o3 & Hupd & Hcls3 & Hnow3 & Hattr3).
  change (deref s2 data) with (deref s0 data) in Hcls3, Hattr3.
  rewrite Hd1 in Hcls3, Hattr3.
  assert (Hid3 : getattr o3 "id" = VUuid (uuid4 (draws s))).
  { rewrite Hattr3 by done. rewrite decide_False by (intros [_ ?]; congruence). done. }
  set (s2' := logged CExecute (set_ticks (S (ticks s2)) s2)) in *.
  destruct (updated_found s2' table (VUuid (uuid4 (draws s))) data o3)
    as (Hd3 & Hl3 & Hsole3); [exact Hl1 | exact Hsole1 | | done |].
  { change (deref s2' data) with (deref s0 data). by rewrite Hd1. }
  set (s3 := set_heap (<[data := o3]> (heap s2')) s2') in *.
  exists s1, s2, s3, (logged CExecute s3).
  split; [exact Hcreate|]. split.
  { by apply read_item_by_id_sole. }
  split; [exact Hupd|]. split.
  { by apply read_item_by_id_sole. }
  change (deref (logged CExecute s3) data) with (deref s3 data). rewrite Hd3.
  split; [done|]. split; [exact Hnow3|]. split; [|split; [|split]].
  - intros Hfc. rewrite Hattr3 by done.
    rewrite decide_False by (intros [_ ?]; congruence). done.
  - intros k Hk. pose proof (base_column_cases k Hk) as (_ & _ & Hne).
    rewrite Hattr3 by done. destruct (decide _); [done|]. by apply Hother.
  - simpl. by rewrite <- !app_assoc.
  - assert (Hknown : known_filters table []).
    { intros k v Hin. by apply elem_of_nil in Hin. }
    assert (Hmeets : ∀ x, meets (logged CExecute s3) table [] x ↔
                          cls (deref s3 x) = table).
    { intros x. unfold meets. split; [tauto | intros ?; split; [done | constructor]]. }
    assert (Hold : ∀ x, x ∈ rows s → deref s3 x = deref s x).
    { intros x Hx. unfold deref, s3, s2', s2, s1, s0. simpl.
      rewrite !lookup_total_insert_ne; [done | intros ->; done..]. }
    rewrite !read_items_by_attrs_quiet by (done || by right).
    change (rows (logged CExecute s3)) with (rows s ++ [data]). simpl.
    eexists _, _. split; [done|]. split; [done|].
    rewrite filter_app, filter_cons_True by (apply Hmeets; rewrite Hd3; congruence).
    rewrite filter_nil, <- Permutation_cons_append. apply Permutation_skip.
    erewrite filter_ext_in; [done|]. intros x Hx. rewrite Hmeets.
    rewrite Hold by done. unfold meets. split; [|tauto].
    intros ?; split; [done | constructor].
Qed.

End Lifecycle.

(** ** The further properties at concrete inputs *)

Section MoreChecks.
Import Example.
#[local] Existing Instance world.

Lemma quiet_db : quiet db.
Proof. right. reflexivity. Defined.

Lemma alice_found : has_id db users (VUuid 100) 0%nat.
Proof. repeat split; [left | vm_compute; reflexivity..]. Defined.

Lemma alice_sole l' : has_id db users (VUuid 100) l' → l' = 0%nat.
Proof. intros [Hin _]. simpl in Hin. by apply list_elem_of_singleton in Hin. Defined.

Lemma wf_blank : wf blank.
Proof. unfold wf. simpl. apply NoDup_nil_2. Defined.

Lemma reads_repeatable_witness :
  (read_item_by_id (read_item_by_id db users (VUuid 100)).2 users (VUuid 100)).1 =
    (read_item_by_id db users (VUuid 100)).1 ∧
  heap (read_item_by_id db users (VUuid 100)).2 = heap db ∧
  rows (read_item_by_id db users (VUuid 100)).2 = rows db.
Proof.
  apply (proj1 (reads_repeatable db users (VUuid 100) [] quiet_db)).
Defined.

Lemma read_item_by_id_as_filter_witness :
  read_item_by_id (logged CFlush db) users (VUuid 100) =
    (let! res := (λ s0, read_items_by_attrs s0 users [("id", VUuid 100)]) in
     lift (one res)) (logged CFlush db) ∧
  ∃ res,
    read_items_by_attrs (logged CFlush db) users [("id", VUuid 100)] =
      (Ok res, logged CExecute (logged CFlush db)) ∧
    (∀ l, l ∈ res ↔ has_id (logged CFlush db) users (VUuid 100) l).
Proof.
  destruct (read_item_by_id_as_filter (logged CFlush db) users 100) as [Hrun Hres].
  split; [exact Hrun | exact (Hres flushed_db)].
Defined.

Lemma read_items_by_attrs_filter_set_witness :
  read_items_by_attrs pair users [("count", VInt 5); ("active", VBool false)] =
  read_items_by_attrs pair users
    [("active", VBool false); ("status", VNone); ("count", VInt 5); ("count", VInt 5)].
Proof.
  apply (read_items_by_attrs_filter_set pair users).
  - right. reflexivity.
  - intros k v Hin _.
    apply elem_of_cons in Hin as [[= -> ->] | Hin];
      [apply (bool_decide_unpack _); vm_compute; exact I |].
    apply list_elem_of_singleton in Hin as [= -> ->].
    apply (bool_decide_unpack _). vm_compute. exact I.
  - intros kv Hv. split; intros Hin.
    + apply elem_of_cons in Hin as [-> | Hin]; [right; right; left|].
      apply list_elem_of_singleton in Hin as ->. left.
    + apply elem_of_cons in Hin as [-> | Hin]; [right; left|].
      apply elem_of_cons in Hin as [-> | Hin]; [by simpl in Hv|].
      apply elem_of_cons in Hin as [-> | Hin]; [left|].
      apply list_elem_of_singleton in Hin as ->. left.
Defined.

Lemma read_items_by_attrs_narrows_witness :
  ∃ r1 r2,
    read_items_by_attrs (logged CFlush pair) users [("count", VInt 5)] =
      (Ok r1, logged CExecute (logged CFlush pair)) ∧
    read_items_by_attrs (logged CFlush pair) users
      ([("count", VInt 5)] ++ [("active", VBool false)]) =
      (Ok r2, logged CExecute (logged CFlush pair)) ∧
    r2 ≡ₚ filter (meets (logged CFlush pair) users [("active", VBool false)]) r1 ∧
    (∀ l, l ∈ r2 ↔ l ∈ r1 ∧ meets (logged CFlush pair) users [("active", VBool false)] l) ∧
    (∀ l, l ∈ r1 → l ∈ rows (logged CFlush pair) ∧ cls (deref (logged CFlush pair) l) = users).
Proof.
  apply (read_items_by_attrs_narrows (logged CFlush pair) users).
  - exact flushed_pair.
  - intros k v Hin _.
    apply elem_of_cons in Hin as [[= -> ->] | Hin];
      [apply (bool_decide_unpack _); vm_compute; exact I |].
    apply list_elem_of_singleton in Hin as [= -> ->].
    apply (bool_decide_unpack _). vm_compute. exact I.
  - intros k v l Hin Hv Hl _ _.
    assert (Hl' : l = 0%nat ∨ l = 1%nat).
    { apply elem_of_cons in Hl as [-> | Hl]; [by left|].
      apply list_elem_of_singleton in Hl as ->. by right. }
    apply elem_of_cons in Hin as [[= -> ->] | Hin];
      [destruct Hl' as [-> | ->]; vm_compute; reflexivity |].
    apply list_elem_of_singleton in Hin as [= -> ->].
    destruct Hl' as [-> | ->]; vm_compute; reflexivity.
Defined.

Lemma update_item_lookup_error_witness :
  (update_item twins (VUuid 100) patch users).1 = Err MultipleResultsFound ∧
  heap (update_item twins (VUuid 100) patch users).2 = heap twins ∧
  rows (update_item twins (VUuid 100) patch users).2 = rows twins ∧
  pending (update_item twins (VUuid 100) patch users).2 = pending twins ∧
  ticks (update_item twins (VUuid 100) patch users).2 = S (ticks twins) ∧
  calls (update_item twins (VUuid 100) patch users).2 = calls twins ++ [CExecute].
Proof.
  apply (update_item_lookup_error twins (VUuid 100) patch users).
  - right. reflexivity.
  - vm_compute. reflexivity.
Defined.

Lemma update_then_read_witness :
  ∃ s', update_item db (VUuid 100) patch users = (Ok 0%nat, s') ∧
        read_item_by_id s' users (VUuid 100) = (Ok 0%nat, logged CExecute s') ∧
        getattr (deref s' 0%nat) "updated_at" = VTime (utcnow (ticks db)).
Proof.
  apply (update_then_read db (VUuid 100) patch users 0%nat).
  - apply NoDup_singleton.
  - exact quiet_db.
  - exact alice_found.
  - exact alice_sole.
  - vm_compute. reflexivity.
Defined.

Lemma update_item_rekeys_witness :
  ∃ s', update_item db (VUuid 100) forged users = (Ok 0%nat, s') ∧
        read_item_by_id s' users (VUuid 100) = (Err NoResultFound, logged CExecute s') ∧
        read_item_by_id s' users (getattr forged "id") = (Ok 0%nat, logged CExecute s').
Proof.
  apply (update_item_rekeys db (VUuid 100) forged users 0%nat).
  - apply NoDup_singleton.
  - reflexivity.
  - reflexivity.
  - exact alice_found.
  - exact alice_sole.
  - vm_compute. reflexivity.
  - vm_compute. discriminate.
  - intros l' (Hin & _ & Hid). apply list_elem_of_singleton in Hin as ->.
    vm_compute in Hid. discriminate.
Defined.

Lemma update_item_twice_witness :
  ∃ s1 s2,
    update_item db (VUuid 100) patch users = (Ok 0%nat, s1) ∧
    update_item s1 (VUuid 100) patch users = (Ok 0%nat, s2) ∧
    (∀ k, k ≠ "updated_at" → getattr (deref s2 0%nat) k = getattr (deref s1 0%nat) k) ∧
    getattr (deref s1 0%nat) "updated_at" = VTime (utcnow (ticks db)) ∧
    getattr (deref s2 0%nat) "updated_at" = VTime (utcnow (S (ticks db))) ∧
    (∀ l', l' ≠ 0%nat → heap s2 !! l' = heap db !! l').
Proof.
  apply (update_item_twice db (VUuid 100) patch users 0%nat).
  - apply NoDup_singleton.
  - exact quiet_db.
  - exact alice_found.
  - exact alice_sole.
  - vm_compute. reflexivity.
Defined.

Lemma update_item_keeps_listing_witness :
  ∃ before after,
    (read_items_by_attrs (logged CFlush db) users []).1 = Ok before ∧
    (read_items_by_attrs (update_item (logged CFlush db) (VUuid 100) patch users).2
       users []).1 = Ok after ∧
    after ≡ₚ before.
Proof.
  apply (update_item_keeps_listing (logged CFlush db) (VUuid 100) patch users 0%nat
           (update_item (logged CFlush db) (VUuid 100) patch users).2 flushed_db).
  - vm_compute. reflexivity.
  - vm_compute. reflexivity.
Defined.

Lemma create_item_flush_error_witness :
  create_item clash users 1%nat =
    (Err IntegrityError, (flush (add 1%nat clash).2).2) ∧
  calls (flush (add 1%nat clash).2).2 = calls clash ++ [CAdd 1%nat; CFlush].
Proof.
  apply (create_item_flush_error clash users 1%nat IntegrityError).
  vm_compute. reflexivity.
Defined.

Lemma create_item_duplicate_id_witness :
  (create_item clash users 1%nat).1 = Err IntegrityError ∧
  heap (create_item clash users 1%nat).2 = heap clash ∧
  rows (create_item clash users 1%nat).2 = rows clash ∧
  calls (create_item clash users 1%nat).2 = calls clash ++ [CAdd 1%nat; CFlush].
Proof.
  apply (create_item_duplicate_id clash users 1%nat 0%nat).
  - reflexivity.
  - intros Hin. apply list_elem_of_singleton in Hin. discriminate.
  - vm_compute. discriminate.
  - left.
  - split; vm_compute; reflexivity.
Defined.

Lemma create_item_keeps_supplied_witness :
  ∃ s', create_item supplied users 1%nat = (Ok 1%nat, s') ∧
        draws s' = draws supplied ∧
        (∀ k, getattr (deref supplied 1%nat) k ≠ VNone →
              getattr (deref s' 1%nat) k = getattr (deref supplied 1%nat) k) ∧
        (∀ k, k ∈ base_columns → getattr (deref s' 1%nat) k ≠ VNone).
Proof.
  apply (create_item_keeps_supplied supplied users 1%nat).
  - unfold wf. simpl. apply NoDup_singleton.
  - reflexivity.
  - intros Hin. apply list_elem_of_singleton in Hin. discriminate.
  - vm_compute. reflexivity.
  - vm_compute. discriminate.
  - intros l Hl _. apply list_elem_of_singleton in Hl as ->.
    vm_compute. discriminate.
Defined.

Lemma create_item_again_witness :
  ∃ s', create_item db users 0%nat = (Ok 0%nat, s') ∧
        heap s' = heap db ∧ rows s' = rows db ∧ pending s' = [] ∧
        ticks s' = ticks db ∧ draws s' = draws db ∧
        calls s' = calls db ++ [CAdd 0%nat; CFlush; CExecute].
Proof.
  apply (create_item_again db users 0%nat).
  - apply NoDup_singleton.
  - reflexivity.
  - repeat split; [left | vm_compute; reflexivity..].
  - intros l' [Hin _]. simpl in Hin. by apply list_elem_of_singleton in Hin.
Defined.

Lemma create_then_list_witness :
  ∃ before after,
    (read_items_by_attrs blank users []).1 = Ok before ∧
    (read_items_by_attrs (create_item blank users 0%nat).2 users []).1 = Ok after ∧
    before ≡ₚ filter (λ x, cls (deref blank x) = users) (rows blank) ∧
    after ≡ₚ (if decide (cls (deref blank 0%nat) = users) then [0%nat] else []) ++ before.
Proof.
  apply (create_then_list blank users 0%nat 0%nat (create_item blank users 0%nat).2).
  - reflexivity.
  - apply not_elem_of_nil.
  - vm_compute. reflexivity.
Defined.

Lemma create_item_flushes_staged_witness :
  rows (create_item staged users 2%nat).2 = [0%nat; 1%nat; 2%nat] ∧
  pending (create_item staged users 2%nat).2 = [].
Proof.
  apply (create_item_flushes_staged staged users 2%nat 2%nat
           (create_item staged users 2%nat).2).
  vm_compute. reflexivity.
Defined.

Lemma unique_keys_db : unique_keys db.
Proof.
  intros l1 l2 Hl1 Hl2 _. simpl in Hl1, Hl2.
  apply list_elem_of_singleton in Hl1, Hl2. congruence.
Defined.

Lemma unique_keys_preserved_witness :
  unique_keys (create_item db users 0%nat).2 ∧
  unique_keys (update_item db (VUuid 100) patch users).2.
Proof.
  split.
  - apply (proj1 (proj2 (proj2 (unique_keys_preserved db wf_db unique_keys_db)))).
  - apply (proj2 (proj2 (proj2 (unique_keys_preserved db wf_db unique_keys_db)))).
    vm_compute. reflexivity.
Defined.

Lemma keyed_once_db : keyed_once (logged CFlush db).
Proof. intros [| i] [| j] l1 l2 Hi Hj _; [done | discriminate..]. Defined.

Lemma read_item_by_id_unique_keys_witness :
  (read_item_by_id (logged CFlush db) users (VUuid 100)).1 ≠ Err MultipleResultsFound ∧
  (∀ l, has_id (logged CFlush db) users (VUuid 100) l →
        (read_item_by_id (logged CFlush db) users (VUuid 100)).1 = Ok l) ∧
  ((∀ l, ¬ has_id (logged CFlush db) users (VUuid 100) l) →
     (read_item_by_id (logged CFlush db) users (VUuid 100)).1 = Err NoResultFound).
Proof.
  apply (read_item_by_id_unique_keys (logged CFlush db) users 100).
  - exact flushed_db.
  - exact keyed_once_db.
Defined.

Lemma controller_lifecycle_witness :
  ∃ s1 s2 s3 s4,
    BaseController.create_item users blank 0%nat = (Ok 0%nat, s1) ∧
    BaseController.get_item_by_id users s1 (VUuid (uuid4 (draws blank))) = (Ok 0%nat, s2) ∧
    BaseController.update_item users s2 (VUuid (uuid4 (draws blank))) patch =
      (Ok 0%nat, s3) ∧
    BaseController.get_item_by_id users s3 (VUuid (uuid4 (draws blank))) = (Ok 0%nat, s4) ∧
    getattr (deref s4 0%nat) "id" = VUuid (uuid4 (draws blank)) ∧
    getattr (deref s4 0%nat) "updated_at" = VTime (utcnow (S (S (ticks blank)))) ∧
    (truthy (getattr patch "created_at") = false →
       getattr (deref s4 0%nat) "created_at" = VTime (utcnow (ticks blank))) ∧
    (∀ k, k ∉ base_columns →
       getattr (deref s4 0%nat) k =
         if decide (k ∈ columns (cls patch) ∧ truthy (getattr patch k) = true)
         then getattr patch k else getattr (deref blank 0%nat) k) ∧
    calls s4 =
      calls blank ++ [CAdd 0%nat; CFlush; CExecute; CExecute; CExecute; CExecute] ∧
    (∃ before after,
       (BaseController.get_all_items users blank []).1 = Ok before ∧
       (BaseController.get_all_items users s4 []).1 = Ok after ∧
       after ≡ₚ 0%nat :: before).
Proof.
  apply (controller_lifecycle blank users 0%nat patch).
  - exact wf_blank.
  - reflexivity.
  - apply not_elem_of_nil.
  - vm_compute. reflexivity.
  - vm_compute. reflexivity.
  - vm_compute. reflexivity.
  - vm_compute. reflexivity.
  - intros l Hl. by apply elem_of_nil in Hl.
  - vm_compute. reflexivity.
Defined.

End MoreChecks.
